(** * The differentiable fixed-point solver of NuX ([nux/util/fixed_point.py])

    A shallow embedding of [_fixed_point], [fixed_point], [fixed_point_fwd]
    and [fixed_point_rev], and the properties of the solver that the
    specification states.  Further on: the autoregressive masks and the
    named parameters of [staxplusplus.py], and the flow combinators of
    [nux/flows/compose.py].

    Conventions of the embedding.
    - Array entries are exact rationals ([Q]); rounding, infinities and NaN
      of the machine floats are outside the model.
    - A structured numeric value (a JAX pytree) is any type with a [PyTree]
      instance.  [jax.lax.while_loop] demands that the loop carry keeps one
      tree structure, so the structure is fixed by the type.
    - [jax.lax.while_loop] is an unbounded loop: it is run with fuel, and
      [None] means that the fuel ran out.  The theorems show how much fuel
      is enough.
    - [jax.vjp] differentiates a Python callable by tracing it.  A Rocq
      function cannot be traced, so an update function carries its two
      cotangent maps with it ([update_fun]). *)

From Stdlib Require Import ZArith QArith Qabs Qpower List Bool Lia Lqa.
From Stdlib Require String Ascii DecimalString DecimalNat Finite.
Import ListNotations.
Import String.StringSyntax.

Delimit Scope string_scope with string.
Bind Scope string_scope with String.string.

Set Warnings "-register-all".

(** ** The error monad of the embedding *)

Definition bind {A B : Type} (m : option A) (k : A -> option B) : option B :=
  match m with
  | Some a => k a
  | None => None
  end.

Notation "x <- m ;; k" := (bind m (fun x => k))
  (at level 61, m at next level, right associativity).
Notation "' p <- m ;; k" := (bind m (fun x => let 'p := x in k))
  (at level 61, p pattern, m at next level, right associativity).

(** ** [jax.numpy] and [jax.lax] *)

Module jnp.

  (** The default of the keyword [rtol] of [jnp.allclose]. *)
Definition default_rtol : Q := 1 # 100000.

  (** [jnp.isclose] on two finite entries: [|a - b| <= atol + rtol * |b|]. *)
Definition isclose (a b rtol atol : Q) : bool :=
    Qle_bool (Qabs (a - b)) (atol + rtol * Qabs b).

  (** [jnp.allclose] on two flat arrays.  The two arrays of the solver always
      have one length ([ravel_size] below); arrays of different lengths are
      answered [false] here. *)
Fixpoint allclose (a b : list Q) (rtol atol : Q) : bool :=
    match a, b with
    | [], [] => true
    | x :: a', y :: b' => isclose x y rtol atol && allclose a' b' rtol atol
    | _, _ => false
    end.

End jnp.

Module lax.

  (** [jax.lax.while_loop cond_fun body_fun init_val], with fuel. *)
Fixpoint while_loop {S : Type} (fuel : nat) (cond_fun : S -> bool)
      (body_fun : S -> S) (init_val : S) : option S :=
    match fuel with
    | O => None
    | Datatypes.S fuel' =>
        if cond_fun init_val
        then while_loop fuel' cond_fun body_fun (body_fun init_val)
        else Some init_val
    end.

End lax.

(** ** Pytrees *)

(** What the solver asks of an iterate: [ravel_pytree] flattens it to one
    numeric sequence, [tree_multimap] combines two iterates leaf by leaf. *)
Class PyTree (X : Type) : Type := {
  ravel_pytree : X -> list Q;
  tree_multimap : (Q -> Q -> Q) -> X -> X -> X;
  ravel_size : forall x y : X,
    length (ravel_pytree x) = length (ravel_pytree y)
}.

(** A scalar leaf. *)
#[export] Instance PyTree_leaf : PyTree Q := {
  ravel_pytree x := [x];
  tree_multimap g x y := g x y;
  ravel_size _ _ := eq_refl
}.

(** [None], the pytree without leaves. *)
#[export] Instance PyTree_none : PyTree unit := {
  ravel_pytree _ := [];
  tree_multimap _ _ _ := tt;
  ravel_size _ _ := eq_refl
}.

(** A pair (and so, by nesting, any tuple). *)
#[export, refine] Instance PyTree_pair {A B : Type} `{PyTree A} `{PyTree B} :
  PyTree (A * B) := {
  ravel_pytree x := ravel_pytree (fst x) ++ ravel_pytree (snd x);
  tree_multimap g x y :=
    (tree_multimap g (fst x) (fst y), tree_multimap g (snd x) (snd y))
}.
Proof.
  intros x y. rewrite !length_app.
  rewrite (ravel_size (fst x) (fst y)), (ravel_size (snd x) (snd y)).
  reflexivity.
Defined.

(** ** The forward iterator *)

Section Solver.

Context {X : Type} `{PyTree X}.

Definition atol : Q := 1 # 100000.

  (** The local [tolerance_achieved] of [cond_fun]. *)
Definition tolerance_achieved (x_prev x : X) : bool :=
    let flat_x_prev := ravel_pytree x_prev in
    let flat_x := ravel_pytree x in
    jnp.allclose flat_x_prev flat_x jnp.default_rtol atol.

Definition cond_fun (max_iters : Z) (val : X * X * Z) : bool :=
    let '(x_prev, x, i) := val in
    let max_iters_reached := if (i >=? max_iters)%Z then true else false in
    negb (max_iters_reached || tolerance_achieved x_prev x).

Definition body_fun (f : X -> X) (val : X * X * Z) : X * X * Z :=
    let '(_, x, i) := val in
    let fx := f x in
    (x, fx, (i + 1)%Z).

Definition _fixed_point (fuel : nat) (f : X -> X) (x_init : X)
      (max_iters : Z) : option (X * Z) :=
    '(_, x, N) <-
      lax.while_loop fuel (cond_fun max_iters) (body_fun f)
        (x_init, f x_init, 0%Z) ;;
    Some (x, N).

End Solver.

(** ** Differentiable update functions and cotangents *)

(** An update function [f(u, x, *nondiff_args)] with the two cotangent maps
    that [jax.vjp] derives from it: [pullback_x f u x args zeta] is
    [zeta^T (df/dx)] and [pullback_u f u x args zeta] is [zeta^T (df/du)],
    both at the point [(u, x, args)]. *)
Record update_fun (U X E : Type) : Type := {
  call : U -> X -> list E -> X;
  pullback_x : U -> X -> list E -> X -> X;
  pullback_u : U -> X -> list E -> X -> U
}.

Arguments call {U X E} _ _ _ _.
Arguments pullback_x {U X E} _ _ _ _ _.
Arguments pullback_u {U X E} _ _ _ _ _.

Module jax.

  (** [jax.vjp(lambda x: f(u, x, *nondiff_args), x)]. *)
Definition vjp_in_x {U X E : Type} (f : update_fun U X E) (u : U)
      (nondiff_args : list E) (x : X) : X * (X -> X) :=
    (call f u x nondiff_args, pullback_x f u x nondiff_args).

  (** [jax.vjp(lambda u: f(u, x, *nondiff_args), u)]. *)
Definition vjp_in_u {U X E : Type} (f : update_fun U X E) (x : X)
      (nondiff_args : list E) (u : U) : X * (X -> U) :=
    (call f u x nondiff_args, pullback_u f u x nondiff_args).

End jax.

(** One entry of the tuple a backward rule returns: a gradient, [None], or a
    nested tuple. *)
Inductive cotangent (U : Type) : Type :=
  | Grad (g : U)
  | NoGrad
  | GradTuple (entries : list (cotangent U)).

Arguments Grad {U} g.
Arguments NoGrad {U}.
Arguments GradTuple {U} entries.


(** ** The differentiable wrapper and its custom derivative *)

Section CustomVjp.

Context {U X E : Type} `{PyTree X}.

Definition fixed_point (fuel : nat) (f : update_fun U X E) (u : U)
      (x_init : X) (max_iters : Z) (nondiff_args : list E) : option X :=
    let fixed_point_iter x := call f u x nondiff_args in
    '(x, N) <- _fixed_point fuel fixed_point_iter x_init max_iters ;;
    Some x.

Definition fixed_point_fwd (fuel : nat) (f : update_fun U X E) (u : U)
      (x_init : X) (max_iters : Z) (nondiff_args : list E)
      : option (X * (U * X * Z * list E)) :=
    x <- fixed_point fuel f u x_init max_iters nondiff_args ;;
    Some (x, (u, x, max_iters, nondiff_args)).

Definition fixed_point_rev (fuel : nat) (f : update_fun U X E)
      (ctx : U * X * Z * list E) (dLdx : X) : option (list (cotangent U)) :=
    let '(u, x, max_iters, nondiff_args) := ctx in
    let '(_, vjp_x) := jax.vjp_in_x f u nondiff_args x in
    let rev_iter zeta :=
      let zetaT_dFdx := vjp_x zeta in
      tree_multimap (fun x y => x + y) dLdx zetaT_dFdx in
    '(zeta, N) <- _fixed_point fuel rev_iter dLdx max_iters ;;
    let '(_, vjp_u) := jax.vjp_in_u f x nondiff_args u in
    let dLdu := vjp_u zeta in
    if (length nondiff_args =? 0)%nat
    then Some [Grad dLdu; NoGrad; NoGrad]
    else Some [Grad dLdu; NoGrad; NoGrad;
               GradTuple (repeat NoGrad (length nondiff_args))].

End CustomVjp.

(** The scalar linear update [f(u, x) = a*x + u]; its Jacobians are
    [df/dx = a] and [df/du = 1]. *)
Definition linear_update (a : Q) : update_fun Q Q unit := {|
  call u x _ := a * x + u;
  pullback_x _ _ _ zeta := zeta * a;
  pullback_u _ _ _ zeta := zeta
|}.

(** The expanding map [f(x) = 2x + 1]. *)
Definition expanding_map (x : Q) : Q := 2 * x + 1.

(** Two iterates with the same numbers in them: their flattenings agree
    entry by entry as rationals. *)
Definition same_numbers {X : Type} `{PyTree X} (x y : X) : Prop :=
  Forall2 Qeq (ravel_pytree x) (ravel_pytree y).


(** The contraction [f(x) = 0.5x + 3], with fixed point [6]. *)
Definition contraction_map (x : Q) : Q := (1 # 2) * x + 3.


(** [jax.grad] of the scalar [fixed_point] in its argument [u], through the
    pair registered by [fixed_point.defvjp(fixed_point_fwd, fixed_point_rev)]:
    the forward rule, then the backward rule on the cotangent [1.0], of
    whose tuple the entry of [u] is the gradient. *)
Definition grad_wrt_u {E : Type} (fuel : nat) (f : update_fun Q Q E) (u : Q)
    (x_init : Q) (max_iters : Z) (nondiff_args : list E) : option Q :=
  '(_, ctx) <- fixed_point_fwd fuel f u x_init max_iters nondiff_args ;;
  cts <- fixed_point_rev fuel f ctx 1 ;;
  match cts with
  | Grad dLdu :: _ => Some dLdu
  | _ => None
  end.

(** The constant update [f(u, x) = u]. *)
Definition constant_update : update_fun Q Q unit := {|
  call u _ _ := u;
  pullback_x _ _ _ _ := 0;
  pullback_u _ _ _ zeta := zeta
|}.

(** ** Exceptions *)

(** The exceptions that the modelled code raises. *)
Inductive exception : Type :=
  | ValueError
  | AssertionError
  | KeyError
  | IndexError
  | ZeroDivisionError.

(** A computation that returns a value or raises. *)
Inductive outcome (A : Type) : Type :=
  | Ok (a : A)
  | Raise (e : exception).

Arguments Ok {A} a.
Arguments Raise {A} e.

Definition and_then {A B : Type} (m : outcome A) (k : A -> outcome B)
    : outcome B :=
  match m with
  | Ok a => k a
  | Raise e => Raise e
  end.

Notation "x <~ m ;; k" := (and_then m (fun x => k))
  (at level 61, m at next level, right associativity).
Notation "' p <~ m ;; k" := (and_then m (fun x => let 'p := x in k))
  (at level 61, p pattern, m at next level, right associativity).

(** [l[i]] for [i >= 0]. *)
Definition getitem {A : Type} (l : list A) (i : nat) : outcome A :=
  match nth_error l i with
  | Some a => Ok a
  | None => Raise IndexError
  end.

(** [l[i] = v] for [i >= 0]. *)
Fixpoint setitem {A : Type} (l : list A) (i : nat) (v : A)
    : outcome (list A) :=
  match l, i with
  | [], _ => Raise IndexError
  | _ :: l', O => Ok (v :: l')
  | a :: l', S i' => r <~ setitem l' i' v ;; Ok (a :: r)
  end.

(** [l.index(x)] on a list of strings. *)
Fixpoint index (l : list String.string) (x : String.string) : outcome nat :=
  match l with
  | [] => Raise ValueError
  | y :: l' =>
      if String.eqb y x then Ok O else i <~ index l' x ;; Ok (S i)
  end.

(** ** Python dictionaries with string keys *)

Module dict.

(** A dictionary keeps its items in insertion order. *)
Definition t (V : Type) : Type := list (String.string * V).

Definition empty {V : Type} : t V := [].

(** A dictionary holds no key twice. *)
Definition wf {V : Type} (d : t V) : Prop := NoDup (map fst d).

(** [d[k]], which raises [KeyError] on a missing key. *)
Fixpoint get {V : Type} (d : t V) (k : String.string) : outcome V :=
  match d with
  | [] => Raise KeyError
  | (k', v) :: d' => if String.eqb k' k then Ok v else get d' k
  end.

(** [k in d]. *)
Fixpoint mem {V : Type} (d : t V) (k : String.string) : bool :=
  match d with
  | [] => false
  | (k', _) :: d' => String.eqb k' k || mem d' k
  end.

(** [d[k] = v]: the value of a key that is present is replaced in place, a
    new key is added at the end. *)
Fixpoint set {V : Type} (d : t V) (k : String.string) (v : V) : t V :=
  match d with
  | [] => [(k, v)]
  | (k', v') :: d' =>
      if String.eqb k' k then (k', v) :: d' else (k', v') :: set d' k v
  end.

(** [d.update(other)]. *)
Definition update {V : Type} (d other : t V) : t V :=
  fold_left (fun acc kv => set acc (fst kv) (snd kv)) other d.

(** [dict(items)]. *)
Definition of_items {V : Type} (items : list (String.string * V)) : t V :=
  update empty items.

End dict.

(** ** [jax.tree_util] on nested tuples *)

Module tree_util.

(** A pytree: a leaf, or a tuple of pytrees. *)
Inductive pytree (A : Type) : Type :=
  | leaf (a : A)
  | tuple (children : list (pytree A)).

Arguments leaf {A} a.
Arguments tuple {A} children.

(** A [PyTreeDef]: the tree with its leaves erased. *)
Definition treedef : Type := pytree unit.

Fixpoint leaves {A : Type} (t : pytree A) : list A :=
  match t with
  | leaf a => [a]
  | tuple children => flat_map leaves children
  end.

Fixpoint structure {A : Type} (t : pytree A) : treedef :=
  match t with
  | leaf _ => leaf tt
  | tuple children => tuple (map structure children)
  end.

(** [tree_flatten(t)]. *)
Definition tree_flatten {A : Type} (t : pytree A) : list A * treedef :=
  (leaves t, structure t).

(** [d1 == d2] on treedefs. *)
Fixpoint treedef_eqb (d1 d2 : treedef) {struct d1} : bool :=
  match d1, d2 with
  | leaf _, leaf _ => true
  | tuple l1, tuple l2 =>
      (fix all2 (l1 l2 : list treedef) {struct l1} : bool :=
         match l1, l2 with
         | [], [] => true
         | a :: l1', b :: l2' => treedef_eqb a b && all2 l1' l2'
         | _, _ => false
         end) l1 l2
  | _, _ => false
  end.

(** [d.flatten_up_to(t)]: the subtrees of [t] at the leaves of [d];
    [ValueError] when [t] has not the tuples of [d]. *)
Fixpoint flatten_up_to {P : Type} (d : treedef) (t : pytree P) {struct d}
    : outcome (list (pytree P)) :=
  match d with
  | leaf _ => Ok [t]
  | tuple ds =>
      match t with
      | leaf _ => Raise ValueError
      | tuple ts =>
          (fix each (ds : list treedef) (ts : list (pytree P)) {struct ds}
               : outcome (list (pytree P)) :=
             match ds, ts with
             | [], [] => Ok []
             | d' :: ds', t' :: ts' =>
                 l1 <~ flatten_up_to d' t' ;;
                 l2 <~ each ds' ts' ;;
                 Ok (l1 ++ l2)
             | _, _ => Raise ValueError
             end) ds ts
      end
  end.

(** The tree of shape [d] built from a prefix of [xs], and the rest of
    [xs]. *)
Fixpoint unflatten_from {P : Type} (d : treedef) (xs : list (pytree P))
    {struct d} : outcome (pytree P * list (pytree P)) :=
  match d with
  | leaf _ =>
      match xs with
      | x :: rest => Ok (x, rest)
      | [] => Raise ValueError
      end
  | tuple ds =>
      '(ts, rest) <~
        (fix each (ds : list treedef) (xs : list (pytree P)) {struct ds}
             : outcome (list (pytree P) * list (pytree P)) :=
           match ds with
           | [] => Ok ([], xs)
           | d' :: ds' =>
               '(t, xs1) <~ unflatten_from d' xs ;;
               '(ts, xs2) <~ each ds' xs1 ;;
               Ok (t :: ts, xs2)
           end) ds xs ;;
      Ok (tuple ts, rest)
  end.

(** [d.unflatten(xs)]; [ValueError] unless [xs] has one entry per leaf of
    [d]. *)
Definition unflatten {P : Type} (d : treedef) (xs : list (pytree P))
    : outcome (pytree P) :=
  '(t, rest) <~ unflatten_from d xs ;;
  match rest with
  | [] => Ok t
  | _ :: _ => Raise ValueError
  end.

End tree_util.

(** ** [staxplusplus.py] *)

Module staxplusplus.

(** *** [build_autoregressive_masks], with [method] other than ['random'] *)

(** A two-dimensional integer array, as the list of its rows. *)
Definition matrix : Type := list (list Z).

(** [np.arange(start, stop)]. *)
Definition arange (start stop : Z) : list Z :=
  map (fun i => start + Z.of_nat i)%Z (seq 0 (Z.to_nat (stop - start))).

(** [(a[:,None] <= b).astype(np.int32)]. *)
Definition outer_le (a b : list Z) : matrix :=
  map (fun p => map (fun q => if (p <=? q)%Z then 1%Z else 0%Z) b) a.

(** [(a[:,None] < b).astype(np.int32)]. *)
Definition outer_lt (a b : list Z) : matrix :=
  map (fun p => map (fun q => if (p <? q)%Z then 1%Z else 0%Z) b) a.

(** The degrees [np.arange(size) % max(1, dim - 1) + min(1, dim - 1)] of a
    layer. *)
Definition layer_sel (dim size : Z) : list Z :=
  map (fun i => i mod Z.max 1 (dim - 1) + Z.min 1 (dim - 1))%Z
    (arange 0 size).

(** The loop [for size in layer_sizes] on its state [(masks, prev_sel)];
    [masks] is returned in the order of the appends. *)
Fixpoint mask_loop (dim : Z) (layer_sizes : list Z) (prev_sel : list Z)
    : list matrix * list Z :=
  match layer_sizes with
  | [] => ([], prev_sel)
  | size :: rest =>
      let sel := layer_sel dim size in
      let mask := outer_le prev_sel sel in
      let '(masks, last_sel) := mask_loop dim rest sel in
      (mask :: masks, last_sel)
  end.

(** ['%d' % j]. *)
Definition format_d (j : nat) : String.string :=
  DecimalString.NilEmpty.string_of_uint (Nat.to_uint j).

(** ['mask_%d' % j]. *)
Definition mask_key (j : nat) : String.string :=
  String.append "mask_" (format_d j).

(** [enumerate(l)]. *)
Definition enumerate {A : Type} (l : list A) : list (nat * A) :=
  combine (seq 0 (length l)) l.

Definition input_degrees (dim : Z) (reverse : bool) : list Z :=
  let input_sel := arange 1 (dim + 1) in
  if reverse then rev input_sel else input_sel.

Definition build_autoregressive_masks (dim : Z) (hidden_layer_sizes : list Z)
    (reverse : bool) : dict.t matrix :=
  let layer_sizes := hidden_layer_sizes ++ [dim] in
  let input_sel := input_degrees dim reverse in
  let '(masks, prev_sel) := mask_loop dim layer_sizes input_sel in
  let skip_mask := outer_lt input_sel input_sel in
  let out_mask := outer_lt prev_sel input_sel in
  let mask_kwargs :=
    dict.of_items
      (map (fun jm => (mask_key (fst jm), snd jm)) (enumerate masks)) in
  let mask_kwargs := dict.set mask_kwargs "skip" skip_mask in
  let mask_kwargs := dict.set mask_kwargs "mu" out_mask in
  let mask_kwargs := dict.set mask_kwargs "alpha" out_mask in
  mask_kwargs.

(** The entry [m[p][q]] of a mask. *)
Definition entry (m : matrix) (p q : nat) : option Z :=
  match nth_error m p with
  | Some row => nth_error row q
  | None => None
  end.

(** The masks that the layers [Dense(size, mask_id='mask_%d' % j)] of
    [GaussianMADE] read from the keyword arguments, for [j] below [n]. *)
Fixpoint read_masks (mask_kwargs : dict.t matrix) (keys : list String.string)
    : outcome (list matrix) :=
  match keys with
  | [] => Ok []
  | k :: keys' =>
      m <~ dict.get mask_kwargs k ;;
      ms <~ read_masks mask_kwargs keys' ;;
      Ok (m :: ms)
  end.

Definition hidden_masks (mask_kwargs : dict.t matrix) (n : nat)
    : outcome (list matrix) :=
  read_masks mask_kwargs (map mask_key (seq 0 n)).

(** A path from the unit [p] through one unit of each following layer:
    every weight on it is let through by its mask. *)
Fixpoint path_open (masks : list matrix) (p : nat) (units : list nat)
    : bool :=
  match masks, units with
  | [], [] => true
  | m :: masks', q :: units' =>
      match entry m p q with
      | Some 1%Z => path_open masks' q units'
      | _ => false
      end
  | _, _ => false
  end.

(** *** [get_param] and [modify_param] *)

Definition get_param {P : Type} (name : String.string)
    (names : tree_util.pytree String.string) (params : tree_util.pytree P)
    : outcome (tree_util.pytree P) :=
  let '(flat_names, treedef) := tree_util.tree_flatten names in
  mapped_params <~ tree_util.flatten_up_to treedef params ;;
  i <~ index flat_names name ;;
  getitem mapped_params i.

Definition modify_param {P : Type} (name : String.string)
    (names : tree_util.pytree String.string) (params : tree_util.pytree P)
    (new_param : tree_util.pytree P) : outcome (tree_util.pytree P) :=
  let '(flat_names, treedef) := tree_util.tree_flatten names in
  mapped_params <~ tree_util.flatten_up_to treedef params ;;
  i <~ index flat_names name ;;
  old_param <~ getitem mapped_params i ;;
  let '(_, old_treedef) := tree_util.tree_flatten old_param in
  let '(_, new_treedef) := tree_util.tree_flatten new_param in
  if tree_util.treedef_eqb old_treedef new_treedef
  then
    i <~ index flat_names name ;;
    mapped_params <~ setitem mapped_params i new_param ;;
    tree_util.unflatten treedef mapped_params
  else Raise AssertionError.

(** The names and the parameters of a small network, as [init_fun] of
    [sequential(Dense, sequential(BatchNorm, Dense))] lays them out. *)
Definition example_names : tree_util.pytree String.string :=
  tree_util.tuple
    [tree_util.leaf "dense";
     tree_util.tuple [tree_util.leaf "bn"; tree_util.leaf "out"]]%string.

Definition example_params : tree_util.pytree Z :=
  tree_util.tuple
    [tree_util.tuple [tree_util.leaf 1%Z; tree_util.leaf 2%Z];
     tree_util.tuple
       [tree_util.tuple [tree_util.leaf 3%Z; tree_util.leaf 4%Z];
        tree_util.tuple [tree_util.leaf 5%Z; tree_util.leaf 6%Z]]].

End staxplusplus.

(** ** [nux/flows/compose.py] *)

(** The array library that the flows are written against: the arrays [V],
    the random keys [K], and the operations of [jax.numpy] and
    [jax.random] that [compose.py] calls. *)
Class Arrays (V K : Type) : Type := {
  (** [a + b] *)
  array_add : V -> V -> V;
  (** [jnp.array(0.0)] *)
  array_zero : V;
  (** [a * -1] *)
  array_negate : V -> V;
  (** [x.shape[axis]] *)
  array_shape : V -> Z -> Z;
  (** [jnp.split(x, (k,), axis)], a list of two arrays *)
  array_split : V -> Z -> Z -> V * V;
  (** [jnp.concatenate(arrays, axis)] *)
  array_concatenate : list V -> Z -> V;
  (** [random.split(rng, n)] *)
  random_split : K -> nat -> list K
}.

Module compose.

Section Flows.

Context {V K : Type} `{Arrays V K}.

(** A flow layer as its callers use it:
    [layer(inputs, rng, sample=sample, **kwargs)], which returns the
    dictionary of its outputs or raises. *)
Definition layer : Type :=
  dict.t V -> option K -> bool -> outcome (dict.t V).

(** The loop [for name in accumulated_outputs.keys()] of [sequential.call]
    and [factored.call]. *)
Fixpoint accumulate_names (names : list String.string) (outputs : dict.t V)
    (accumulated_outputs : dict.t V) (accumulated_found : dict.t bool)
    : outcome (dict.t V * dict.t bool) :=
  match names with
  | [] => Ok (accumulated_outputs, accumulated_found)
  | name :: rest =>
      if dict.mem outputs name
      then
        so_far <~ dict.get accumulated_outputs name ;;
        term <~ dict.get outputs name ;;
        accumulate_names rest outputs
          (dict.set accumulated_outputs name (array_add so_far term))
          (dict.set accumulated_found name true)
      else accumulate_names rest outputs accumulated_outputs accumulated_found
  end.

(** The loop [for name, val in accumulated_outputs.items()] that swaps the
    accumulated outputs in. *)
Fixpoint swap_in (items : list (String.string * V))
    (accumulated_found : dict.t bool) (final_outputs : dict.t V)
    : outcome (dict.t V) :=
  match items with
  | [] => Ok final_outputs
  | (name, val) :: rest =>
      found <~ dict.get accumulated_found name ;;
      if found
      then swap_in rest accumulated_found (dict.set final_outputs name val)
      else swap_in rest accumulated_found final_outputs
  end.

(** The loop over the layers of [sequential.call], on its state
    [(layer_inputs, final_outputs, accumulated_outputs,
    accumulated_found)]. *)
Fixpoint sequential_loop (pairs : list (layer * option K)) (sample : bool)
    (layer_inputs final_outputs accumulated_outputs : dict.t V)
    (accumulated_found : dict.t bool)
    : outcome (dict.t V * dict.t V * dict.t V * dict.t bool) :=
  match pairs with
  | [] =>
      Ok (layer_inputs, final_outputs, accumulated_outputs,
          accumulated_found)
  | (layer, rng) :: rest =>
      outputs <~ layer layer_inputs rng sample ;;
      x <~ dict.get outputs "x" ;;
      let layer_inputs := dict.set layer_inputs "x" x in
      let final_outputs := dict.update final_outputs outputs in
      '(accumulated_outputs, accumulated_found) <~
        accumulate_names (map fst accumulated_outputs) outputs
          accumulated_outputs accumulated_found ;;
      sequential_loop rest sample layer_inputs final_outputs
        accumulated_outputs accumulated_found
  end.

(** [rngs = random.split(rng, n_layers) if rng is not None
    else [None]*n_layers]. *)
Definition split_rngs (rng : option K) (n_layers : nat) : list (option K) :=
  match rng with
  | Some key => map Some (random_split key n_layers)
  | None => repeat None n_layers
  end.

(** [sequential.call(inputs, rng, sample, accumulate)] on the layers [layers]. *)
Definition sequential_call (layers : list layer) (inputs : dict.t V)
    (rng : option K) (sample : bool) (accumulate : list String.string)
    : outcome (dict.t V) :=
  let n_layers := length layers in
  let iter_layers := if sample then rev layers else layers in
  let final_outputs := inputs in
  let accumulated_outputs :=
    dict.of_items (map (fun name => (name, array_zero)) accumulate) in
  let accumulated_found :=
    dict.of_items (map (fun name => (name, false)) accumulate) in
  let rngs := split_rngs rng n_layers in
  let layer_inputs := inputs in
  '(_, final_outputs, accumulated_outputs, accumulated_found) <~
    sequential_loop (combine iter_layers rngs) sample layer_inputs
      final_outputs accumulated_outputs accumulated_found ;;
  swap_in accumulated_outputs accumulated_found final_outputs.

(** The loop over the parts of ["x"] of [factored.call], on its state
    [(layer_inputs, final_outputs, zs, accumulated_outputs,
    accumulated_found)]. *)
Fixpoint factored_loop (triples : list (V * layer * option K))
    (sample : bool) (layer_inputs final_outputs : dict.t V) (zs : list V)
    (accumulated_outputs : dict.t V) (accumulated_found : dict.t bool)
    : outcome (dict.t V * list V * dict.t V * dict.t bool) :=
  match triples with
  | [] => Ok (final_outputs, zs, accumulated_outputs, accumulated_found)
  | (x, layer, rng) :: rest =>
      let layer_inputs := dict.set layer_inputs "x" x in
      outputs <~ layer layer_inputs rng sample ;;
      let final_outputs := dict.update final_outputs outputs in
      z <~ dict.get outputs "x" ;;
      let zs := zs ++ [z] in
      '(accumulated_outputs, accumulated_found) <~
        accumulate_names (map fst accumulated_outputs) outputs
          accumulated_outputs accumulated_found ;;
      factored_loop rest sample layer_inputs final_outputs zs
        accumulated_outputs accumulated_found
  end.

(** [factored.call(inputs, rng, sample, accumulate)] on the layers
    [layers], with the attributes [axis] and [first_factor_ratio]. *)
Definition factored_call (layers : list layer) (axis : Z)
    (first_factor_ratio : Z) (inputs : dict.t V) (rng : option K)
    (sample : bool) (accumulate : list String.string)
    : outcome (dict.t V) :=
  let n_layers := length layers in
  let final_outputs := inputs in
  let accumulated_outputs :=
    dict.of_items (map (fun name => (name, array_zero)) accumulate) in
  let accumulated_found :=
    dict.of_items (map (fun name => (name, false)) accumulate) in
  xs <~
    (if (n_layers =? 2)%nat
     then
       x <~ dict.get inputs "x" ;;
       if (first_factor_ratio =? 0)%Z
       then Raise ZeroDivisionError
       else
         let split_idx := (array_shape x axis / first_factor_ratio)%Z in
         let '(xa, xb) := array_split x split_idx axis in
         Ok [xa; xb]
     else Raise AssertionError) ;;
  let zs := [] in
  let rngs := split_rngs rng n_layers in
  let layer_inputs := inputs in
  '(final_outputs, zs, accumulated_outputs, accumulated_found) <~
    factored_loop (combine (combine xs layers) rngs) sample layer_inputs
      final_outputs zs accumulated_outputs accumulated_found ;;
  final_outputs <~
    swap_in accumulated_outputs accumulated_found final_outputs ;;
  let z := array_concatenate zs axis in
  Ok (dict.set final_outputs "x" z).

(** [multi_scale(flow).call(inputs, rng, sample)]. *)
Definition multi_scale_call (flow : layer) (inputs : dict.t V)
    (rng : option K) (sample : bool) : outcome (dict.t V) :=
  x <~ dict.get inputs "x" ;;
  let '(xa, xb) := array_split x (array_shape x (-1) / 2) (-1) in
  let factored_inputs := dict.set inputs "x" xb in
  outputs <~ flow factored_inputs rng sample ;;
  out_x <~ dict.get outputs "x" ;;
  let z := array_concatenate [xa; out_x] (-1) in
  Ok (dict.set outputs "x" z).

(** [reverse_flow(flow).call(inputs, rng, sample)]. *)
Definition reverse_flow_call (flow : layer) (inputs : dict.t V)
    (rng : option K) (sample : bool) : outcome (dict.t V) :=
  outputs <~ flow inputs rng (negb sample) ;;
  log_det <~ dict.get outputs "log_det" ;;
  Ok (dict.set outputs "log_det" (array_negate log_det)).

(** A layer that maps the entry ["x"] of its inputs by [h] when called with
    the flag [sample], whatever else the inputs hold and whatever the key
    is. *)
Definition maps_x (l : layer) (sample : bool) (h : V -> V) : Prop :=
  forall (inputs : dict.t V) (rng : option K) (x : V),
    dict.get inputs "x" = Ok x ->
    exists outputs : dict.t V,
      l inputs rng sample = Ok outputs
      /\ dict.wf outputs
      /\ dict.get outputs "x" = Ok (h x).

(** A bijective layer: it maps ["x"] by [g] forward, and by the inverse of
    [g] when sampling. *)
Definition bijective_on_x (l : layer) : Prop :=
  exists g g_inv : V -> V,
    maps_x l false g /\ maps_x l true g_inv
    /\ (forall x : V, g_inv (g x) = x).

(** A layer that, besides mapping ["x"] by [h], returns under the key
    [name] the value [term x] computed from the ["x"] it received. *)
Definition maps_x_with (l : layer) (sample : bool) (name : String.string)
    (h term : V -> V) : Prop :=
  forall (inputs : dict.t V) (rng : option K) (x : V),
    dict.get inputs "x" = Ok x ->
    exists outputs : dict.t V,
      l inputs rng sample = Ok outputs
      /\ dict.wf outputs
      /\ dict.get outputs "x" = Ok (h x)
      /\ dict.get outputs name = Ok (term x).

(** The values that a chain of such layers hands on: the ["x"] after the
    last layer, and the sum of the terms, each term computed from the ["x"]
    its layer received and added in the order of the layers. *)
Fixpoint chain (steps : list ((V -> V) * (V -> V))) (x total : V) : V * V :=
  match steps with
  | [] => (x, total)
  | (h, term) :: rest => chain rest (h x) (array_add total (term x))
  end.

End Flows.

End compose.

(** One-dimensional integer arrays with integer keys: an array library for
    the examples.  A one-entry array stands for a scalar in [a + b]. *)
#[export] Instance list_arrays : Arrays (list Z) nat := {
  array_add a b :=
    match a, b with
    | [s], _ => map (fun y => s + y)%Z b
    | _, [s] => map (fun y => y + s)%Z a
    | _, _ => map (fun p => fst p + snd p)%Z (combine a b)
    end;
  array_zero := [0%Z];
  array_negate a := map (fun y => y * -1)%Z a;
  array_shape a _ := Z.of_nat (length a);
  array_split a k _ := (firstn (Z.to_nat k) a, skipn (Z.to_nat k) a);
  array_concatenate arrays _ := concat arrays;
  random_split key n := map (fun i => key + i)%nat (seq 1 n)
}.

(** A flow layer for the examples: it adds [c] to every entry of ["x"]
    (and takes [c] off again when sampling) and returns [c] as
    ["log_det"]. *)
Definition shift_layer (c : Z) : @compose.layer (list Z) nat :=
  fun inputs rng sample =>
    x <~ dict.get inputs "x" ;;
    let z := map (fun y => if sample then y - c else y + c)%Z x in
    Ok [("x"%string, z); ("log_det"%string, [c])].

(** * Properties of the forward iterator *)

Section SolverFacts.

Context {X : Type} `{PyTree X}.
Variable f : X -> X.

(** The loop started on the carry [(x_prev, f x_prev, i)] with [i] below the
    cap stops after some [k] further rounds on the carry
    [(f^k x_prev, f^(k+1) x_prev, i + k)]: the cap is respected, the stop is
    caused by the cap or by the tolerance, and no earlier round met the
    tolerance. *)
Lemma while_loop_run (max_iters : Z) (fuel : nat) :
  forall (i : Z) (x_prev : X),
    (i <= max_iters)%Z ->
    (Z.to_nat (max_iters - i) < fuel)%nat ->
    exists k : nat,
      lax.while_loop fuel (cond_fun max_iters) (body_fun f)
        (x_prev, f x_prev, i)
      = Some (Nat.iter k f x_prev, Nat.iter (S k) f x_prev,
              (i + Z.of_nat k)%Z)
      /\ (i + Z.of_nat k <= max_iters)%Z
      /\ ((i + Z.of_nat k = max_iters)%Z
          \/ tolerance_achieved (Nat.iter k f x_prev)
               (Nat.iter (S k) f x_prev) = true)
      /\ (forall j : nat, (j < k)%nat ->
            tolerance_achieved (Nat.iter j f x_prev)
              (Nat.iter (S j) f x_prev) = false).
Proof.
  induction fuel as [|fuel' IH]; intros i x_prev Hle Hfuel; [lia|].
  cbn [lax.while_loop cond_fun].
  destruct (Z.geb_spec i max_iters) as [Hge|Hlt].
  - exists 0%nat. cbn. rewrite Z.add_0_r.
    repeat split; try lia.
  - destruct (tolerance_achieved x_prev (f x_prev)) eqn:Htol.
    + exists 0%nat. cbn. rewrite Z.add_0_r.
      repeat split; try lia; auto.
    + cbn [orb negb body_fun].
      destruct (IH (i + 1)%Z (f x_prev)) as (k & Hrun & Hcap & Hstop & Hnot);
        [lia | lia |].
      exists (S k).
      rewrite <- !Nat.iter_succ_r in Hrun, Hstop.
      replace (i + Z.of_nat (S k))%Z with (i + 1 + Z.of_nat k)%Z by lia.
      repeat split; auto.
      intros [|j] Hj; [exact Htol|].
      assert (Hj' : (j < k)%nat) by lia.
      specialize (Hnot j Hj'). rewrite <- !Nat.iter_succ_r in Hnot.
      exact Hnot.
Qed.

(** The solver always returns, with fuel above the cap, and what it returns
    is described by the number [k] of rounds of its loop. *)
Lemma _fixed_point_run (fuel : nat) (x_init : X) (max_iters : Z) :
  (0 <= max_iters)%Z ->
  (Z.to_nat max_iters < fuel)%nat ->
  exists k : nat,
    _fixed_point fuel f x_init max_iters
    = Some (Nat.iter (S k) f x_init, Z.of_nat k)
    /\ (Z.of_nat k <= max_iters)%Z
    /\ (Z.of_nat k = max_iters
        \/ tolerance_achieved (Nat.iter k f x_init)
             (Nat.iter (S k) f x_init) = true)
    /\ (forall j : nat, (j < k)%nat ->
          tolerance_achieved (Nat.iter j f x_init)
            (Nat.iter (S j) f x_init) = false).
Proof.
  intros Hm Hfuel.
  destruct (while_loop_run max_iters fuel 0 x_init)
    as (k & Hrun & Hcap & Hstop & Hnot); [lia | rewrite Z.sub_0_r; lia |].
  exists k. unfold _fixed_point. rewrite Hrun. cbn.
  repeat split; auto.
Qed.

(** With a cap that is not positive the loop body never runs. *)
Lemma _fixed_point_cap_nonpos (fuel : nat) (x_init : X) (max_iters : Z) :
  (max_iters <= 0)%Z ->
  _fixed_point (S fuel) f x_init max_iters = Some (f x_init, 0%Z).
Proof.
  intros Hm. unfold _fixed_point. cbn [lax.while_loop cond_fun].
  destruct (Z.geb_spec 0 max_iters); [reflexivity | lia].
Qed.

(** Fuel above the cap is enough, whatever the sign of the cap. *)
Lemma _fixed_point_total (fuel : nat) (x_init : X) (max_iters : Z) :
  (Z.to_nat max_iters < fuel)%nat ->
  exists (x : X) (N : Z), _fixed_point fuel f x_init max_iters = Some (x, N).
Proof.
  intros Hfuel. destruct (Z.le_gt_cases 0 max_iters) as [Hm|Hm].
  - destruct (_fixed_point_run fuel x_init max_iters Hm Hfuel)
      as (k & Hrun & _).
    eauto.
  - destruct fuel as [|fuel']; [lia|].
    exists (f x_init), 0%Z. apply _fixed_point_cap_nonpos. lia.
Qed.

(** C3. With [max_iters = 0] the solver returns [f x_init], that is [f]
    applied to [x_init] once, and the iteration count [0]; this holds for
    every [f] and [x_init], as soon as the loop has fuel for its one test. *)
Theorem max_iters_zero_applies_f_once (fuel : nat) (x_init : X) :
  _fixed_point (S fuel) f x_init 0 = Some (f x_init, 0%Z).
Proof.
  apply _fixed_point_cap_nonpos. lia.
Qed.



End SolverFacts.

(** ** The tolerance test *)

Lemma isclose_of_Qeq (a b rtol atol : Q) :
  a == b -> 0 <= rtol -> 0 <= atol -> jnp.isclose a b rtol atol = true.
Proof.
  intros Hab Hr Ha. unfold jnp.isclose. apply Qle_bool_iff.
  assert (Hz : a - b == 0) by (rewrite Hab; ring).
  rewrite Hz. change (Qabs 0) with 0.
  pose proof (Qabs_nonneg b) as Hb.
  apply Qle_trans with (0 + 0 * Qabs b); [ring_simplify; apply Qle_refl|].
  apply Qplus_le_compat; [exact Ha|].
  apply Qmult_le_compat_r; assumption.
Qed.

Lemma allclose_of_Qeq (rtol atol : Q) :
  0 <= rtol -> 0 <= atol ->
  forall a b : list Q, Forall2 Qeq a b -> jnp.allclose a b rtol atol = true.
Proof.
  intros Hr Ha a b Hab.
  induction Hab as [|x y a b Hxy _ IH]; cbn; [reflexivity|].
  rewrite (isclose_of_Qeq x y rtol atol Hxy Hr Ha), IH. reflexivity.
Qed.

(** [jnp.allclose] is the entrywise test [|a - b| <= atol + rtol * |b|]. *)
Lemma allclose_iff (rtol atol : Q) (a b : list Q) :
  jnp.allclose a b rtol atol = true <->
  Forall2 (fun x y => Qabs (x - y) <= atol + rtol * Qabs y) a b.
Proof.
  revert b. induction a as [|x a IH]; intros [|y b]; cbn.
  - split; [constructor | reflexivity].
  - split; [discriminate | intros Hf; inversion Hf].
  - split; [discriminate | intros Hf; inversion Hf].
  - rewrite andb_true_iff, IH. unfold jnp.isclose. rewrite Qle_bool_iff.
    split.
    + intros [Hx Hab]. constructor; assumption.
    + intros Hf. inversion Hf; subst. split; assumption.
Qed.

Lemma tolerance_achieved_same_numbers {X : Type} `{PyTree X} (x y : X) :
  same_numbers x y -> tolerance_achieved x y = true.
Proof.
  intros Hxy. unfold tolerance_achieved.
  apply allclose_of_Qeq; [discriminate | discriminate | exact Hxy].
Qed.

(** C6. When [x_init] is an exact fixed point of [f] (the numbers of
    [f x_init] are those of [x_init]), the solver returns at once, for every
    [max_iters]: the loop body does not run, the count is [0], and the value
    returned has the numbers of [x_init]. *)
Theorem exact_fixed_point_returned_at_once {X : Type} `{PyTree X}
    (f : X -> X) (fuel : nat) (x_init : X) (max_iters : Z) :
  same_numbers (f x_init) x_init ->
  exists x : X,
    _fixed_point (S fuel) f x_init max_iters = Some (x, 0%Z)
    /\ x = f x_init
    /\ same_numbers x x_init.
Proof.
  intros Hfix. exists (f x_init). repeat split; [|exact Hfix].
  unfold _fixed_point. cbn [lax.while_loop cond_fun].
  rewrite tolerance_achieved_same_numbers.
  - rewrite orb_true_r. reflexivity.
  - unfold same_numbers in *.
    clear - Hfix. induction Hfix; constructor; auto. symmetry; assumption.
Qed.

Lemma exact_fixed_point_returned_at_once_witness :
  same_numbers (expanding_map (-1)) (-1)
  /\ exists x : Q,
       _fixed_point 1 expanding_map (-1) 7 = Some (x, 0%Z)
       /\ x = expanding_map (-1)
       /\ same_numbers x (-1).
Proof.
  assert (Hfix : same_numbers (expanding_map (-1)) (-1)).
  { unfold same_numbers. cbn. constructor; [reflexivity | constructor]. }
  split; [exact Hfix|].
  apply (exact_fixed_point_returned_at_once expanding_map 0 (-1) 7 Hfix).
Defined.

(** With Leibniz equality in place of equality of numbers. *)
Corollary fixed_point_start_unchanged {X : Type} `{PyTree X}
    (f : X -> X) (fuel : nat) (x_init : X) (max_iters : Z) :
  f x_init = x_init ->
  _fixed_point (S fuel) f x_init max_iters = Some (x_init, 0%Z).
Proof.
  intros Hfix. unfold _fixed_point. cbn [lax.while_loop cond_fun].
  rewrite Hfix, tolerance_achieved_same_numbers.
  - rewrite orb_true_r. reflexivity.
  - unfold same_numbers. induction (ravel_pytree x_init); constructor; auto.
    reflexivity.
Qed.




(** C4 as stated fails: the test is not the absolute test
    [|a - b| <= 1e-5] alone.  [1000] and [1000.005] differ by [0.005], five
    hundred times the absolute tolerance, and pass the test, through the
    relative tolerance that [jnp.allclose] adds by default. *)
Lemma absolute_tolerance_is_not_the_whole_test :
  ~ (forall x_prev x : Q,
       tolerance_achieved x_prev x = true <->
       Forall2 (fun a b => Qabs (a - b) <= 1 # 100000)
         (ravel_pytree x_prev) (ravel_pytree x)).
Proof.
  intros Hclaim.
  destruct (Hclaim 1000 (1000005 # 1000)) as [Habs _].
  assert (Hpass : tolerance_achieved (1000 : Q) (1000005 # 1000) = true)
    by (vm_compute; reflexivity).
  specialize (Habs Hpass). cbn in Habs. inversion Habs as [|a b l l' Hab _]; subst.
  vm_compute in Hab. apply Hab. reflexivity.
Qed.

(** C4, as amended. The convergence test sees the two iterates through
    their flattenings only, and holds exactly when every pair of entries
    [a] (older iterate) and [b] (newer iterate) satisfies
    [|a - b| <= 1e-5 + 1e-5 * |b|]: the absolute tolerance [atol = 1e-5] of
    the solver and the default relative tolerance [1e-5] of [jnp.allclose].
    Iterates of another container shape with the same flattenings get the
    same answer. *)
Theorem tolerance_test_is_flat_allclose {X Y : Type} `{PyTree X} `{PyTree Y}
    (x_prev x : X) (y_prev y : Y) :
  (tolerance_achieved x_prev x = true <->
   Forall2 (fun a b => Qabs (a - b) <= (1 # 100000) + (1 # 100000) * Qabs b)
     (ravel_pytree x_prev) (ravel_pytree x))
  /\ (ravel_pytree x_prev = ravel_pytree y_prev ->
      ravel_pytree x = ravel_pytree y ->
      tolerance_achieved x_prev x = tolerance_achieved y_prev y).
Proof.
  split.
  - unfold tolerance_achieved. apply allclose_iff.
  - intros Hprev Hx. unfold tolerance_achieved. rewrite Hprev, Hx.
    reflexivity.
Qed.

Lemma tolerance_test_is_flat_allclose_witness :
  ravel_pytree ((1, (2, 3)) : Q * (Q * Q))
  = ravel_pytree (((1, 2), (tt, 3)) : (Q * Q) * (unit * Q))
  /\ ravel_pytree ((1, (2, 3000001 # 1000000)) : Q * (Q * Q))
     = ravel_pytree (((1, 2), (tt, 3000001 # 1000000)) : (Q * Q) * (unit * Q))
  /\ tolerance_achieved
       ((1, (2, 3)) : Q * (Q * Q)) (1, (2, 3000001 # 1000000))
     = tolerance_achieved
         (((1, 2), (tt, 3)) : (Q * Q) * (unit * Q))
         ((1, 2), (tt, 3000001 # 1000000)).
Proof.
  split; [reflexivity|]. split; [reflexivity|].
  apply (tolerance_test_is_flat_allclose
           ((1, (2, 3)) : Q * (Q * Q)) (1, (2, 3000001 # 1000000))
           (((1, 2), (tt, 3)) : (Q * Q) * (unit * Q))
           ((1, 2), (tt, 3000001 # 1000000))); reflexivity.
Defined.

(** ** The expanding map *)








(** * Properties of the differentiable wrapper and its backward rule *)



Section CustomVjpFacts.

Context {U X E : Type} `{PyTree X}.
Variable f : update_fun U X E.

(** C10. The entry point [fixed_point] runs the solver on
    [x => f(u, x, *nondiff_args)] and hands back its final iterate alone:
    with fuel above the cap it always returns a value, never an error, and
    the count [N] of the solver is not part of what it returns. *)
Theorem fixed_point_returns_iterate_only (fuel : nat) (u : U) (x_init : X)
    (max_iters : Z) (nondiff_args : list E) :
  (Z.to_nat max_iters < fuel)%nat ->
  exists (x : X) (N : Z),
    _fixed_point fuel (fun x => call f u x nondiff_args) x_init max_iters
    = Some (x, N)
    /\ fixed_point fuel f u x_init max_iters nondiff_args = Some x.
Proof.
  intros Hfuel.
  destruct (_fixed_point_total (fun x => call f u x nondiff_args)
              fuel x_init max_iters Hfuel) as (x & N & Hrun).
  exists x, N. split; [exact Hrun|].
  unfold fixed_point. rewrite Hrun. reflexivity.
Qed.

(** The forward rule saves [(u, x, max_iters, *nondiff_args)] with [x] the
    value it returns. *)
Lemma fixed_point_fwd_saves (fuel : nat) (u : U) (x_init : X)
    (max_iters : Z) (nondiff_args : list E) :
  (Z.to_nat max_iters < fuel)%nat ->
  exists x_star : X,
    fixed_point fuel f u x_init max_iters nondiff_args = Some x_star
    /\ fixed_point_fwd fuel f u x_init max_iters nondiff_args
       = Some (x_star, (u, x_star, max_iters, nondiff_args)).
Proof.
  intros Hfuel.
  destruct (_fixed_point_total (fun x => call f u x nondiff_args)
              fuel x_init max_iters Hfuel) as (x & N & Hrun).
  exists x. unfold fixed_point_fwd, fixed_point. rewrite Hrun. cbn.
  split; reflexivity.
Qed.

(** The backward rule unfolded: one run of the solver on [rev_iter], then
    [vjp_u]. *)
Lemma fixed_point_rev_unfold (fuel : nat) (u : U) (x : X) (max_iters : Z)
    (nondiff_args : list E) (dLdx zeta : X) (N : Z) :
  _fixed_point fuel
    (fun z => tree_multimap (fun a b => a + b) dLdx
                (pullback_x f u x nondiff_args z))
    dLdx max_iters = Some (zeta, N) ->
  fixed_point_rev fuel f (u, x, max_iters, nondiff_args) dLdx
  = Some (Grad (pullback_u f u x nondiff_args zeta) :: NoGrad :: NoGrad ::
          (if (length nondiff_args =? 0)%nat then []
           else [GradTuple (repeat NoGrad (length nondiff_args))])).
Proof.
  intros Hrun. unfold fixed_point_rev, jax.vjp_in_x, jax.vjp_in_u.
  rewrite Hrun. cbn.
  destruct (length nondiff_args =? 0)%nat; reflexivity.
Qed.

(** C2. The backward pass works at the point [x_star] that the forward pass
    returned and saved: it runs the iterator of the forward pass,
    [_fixed_point], on [rev_iter zeta = dLdx + vjp_x zeta] with [vjp_x] the
    cotangent map of [f] in [x] at [x_star], from the initial guess [dLdx]
    and under the saved cap [max_iters]; the entry it returns for [u] is
    [vjp_u zeta], with [vjp_u] the cotangent map of [f] in [u] at the same
    [x_star] and [zeta] the value that run returned. *)
Theorem backward_pass_is_adjoint_solve (fuel : nat) (u : U) (x_init : X)
    (max_iters : Z) (nondiff_args : list E) (dLdx : X) :
  (Z.to_nat max_iters < fuel)%nat ->
  exists (x_star zeta : X) (N : Z) (others : list (cotangent U)),
    fixed_point_fwd fuel f u x_init max_iters nondiff_args
    = Some (x_star, (u, x_star, max_iters, nondiff_args))
    /\ _fixed_point fuel
         (fun z => tree_multimap (fun a b => a + b) dLdx
                     (pullback_x f u x_star nondiff_args z))
         dLdx max_iters = Some (zeta, N)
    /\ fixed_point_rev fuel f (u, x_star, max_iters, nondiff_args) dLdx
       = Some (Grad (pullback_u f u x_star nondiff_args zeta) :: others).
Proof.
  intros Hfuel.
  destruct (fixed_point_fwd_saves fuel u x_init max_iters nondiff_args Hfuel)
    as (x_star & _ & Hfwd).
  destruct (_fixed_point_total
              (fun z => tree_multimap (fun a b => a + b) dLdx
                          (pullback_x f u x_star nondiff_args z))
              fuel dLdx max_iters Hfuel) as (zeta & N & Hrun).
  exists x_star, zeta, N. eexists.
  split; [exact Hfwd|]. split; [exact Hrun|].
  apply fixed_point_rev_unfold with (N := N). exact Hrun.
Qed.


End CustomVjpFacts.

Lemma fixed_point_returns_iterate_only_witness :
  (Z.to_nat 100 < 101)%nat
  /\ exists (x : Q) (N : Z),
       _fixed_point 101 (fun x => call (linear_update (1 # 2)) 3 x [])
         0 100 = Some (x, N)
       /\ fixed_point 101 (linear_update (1 # 2)) 3 0 100 [] = Some x.
Proof.
  split; [simpl; lia|].
  apply (fixed_point_returns_iterate_only (linear_update (1 # 2))
           101 3 0 100 []).
  simpl; lia.
Defined.

(** A run that stopped on the tolerance and a run that stopped on the cap,
    short of the tolerance, hand the same value to the caller of
    [fixed_point]. *)
Example converged_and_capped_runs_look_alike :
  _fixed_point 6 (fun x => call constant_update 1 x []) 0 5 = Some (1, 1%Z)
  /\ _fixed_point 6 (fun x => call constant_update 1 x []) 0 0
     = Some (1, 0%Z)
  /\ tolerance_achieved (0 : Q) 1 = false
  /\ fixed_point 6 constant_update 1 0 5 [] = Some 1
  /\ fixed_point 6 constant_update 1 0 0 [] = Some 1.
Proof.
  repeat split; vm_compute; reflexivity.
Qed.

Lemma backward_pass_is_adjoint_solve_witness :
  (Z.to_nat 100 < 101)%nat
  /\ exists (x_star zeta : Q) (N : Z) (others : list (cotangent Q)),
       fixed_point_fwd 101 (linear_update (1 # 2)) 3 0 100 []
       = Some (x_star, (3, x_star, 100%Z, []))
       /\ _fixed_point 101
            (fun z => tree_multimap (fun a b => a + b) 1
                        (pullback_x (linear_update (1 # 2)) 3 x_star [] z))
            1 100 = Some (zeta, N)
       /\ fixed_point_rev 101 (linear_update (1 # 2)) (3, x_star, 100%Z, []) 1
          = Some (Grad (pullback_u (linear_update (1 # 2)) 3 x_star [] zeta)
                  :: others).
Proof.
  split; [simpl; lia|].
  apply (backward_pass_is_adjoint_solve (linear_update (1 # 2))
           101 3 0 100 [] 1).
  simpl; lia.
Defined.


(** The shape of the tuple of the backward rule: three entries without
    extra arguments, four entries with any number of them. *)
Example fixed_point_rev_tuple_shapes :
  option_map (@length _)
    (fixed_point_rev 101 (linear_update (1 # 2)) (3, 6, 100%Z, []) 1)
  = Some 3%nat
  /\ option_map (@length _)
       (fixed_point_rev 101 (linear_update (1 # 2)) (3, 6, 100%Z, [tt]) 1)
     = Some 4%nat
  /\ option_map (@length _)
       (fixed_point_rev 101 (linear_update (1 # 2))
          (3, 6, 100%Z, [tt; tt; tt]) 1)
     = Some 4%nat.
Proof.
  repeat split; vm_compute; reflexivity.
Qed.

(** ** The gradient of the scalar linear fixed point *)

(** The iterates of [rev_iter zeta = 1 + zeta * a] from [1] are the partial
    sums of the geometric series of [a]. *)
Lemma adjoint_iterates_geometric (a : Q) (k : nat) :
  Nat.iter k (fun zeta => 1 + zeta * a) 1 * (1 - a)
  == 1 - a ^ (Z.of_nat k + 1).
Proof.
  induction k as [|k IH].
  - cbn. ring.
  - cbn [Nat.iter nat_rect].
    set (z := nat_rect _ _ _ k) in *.
    change (Nat.iter k (fun zeta => 1 + zeta * a) 1) with z in IH.
    assert (Hsplit : (1 + z * a) * (1 - a) == (1 - a) + a * (z * (1 - a)))
      by ring.
    assert (Hpow : a ^ (Z.of_nat (S k) + 1) == a ^ (Z.of_nat k + 1) * a).
    { replace (Z.of_nat (S k) + 1)%Z with ((Z.of_nat k + 1) + 1)%Z by lia.
      rewrite Qpower_plus' by lia. reflexivity. }
    rewrite Hsplit, IH, Hpow. ring.
Qed.

(** Successive adjoint iterates differ by a power of [a]. *)
Lemma adjoint_iterates_step (a : Q) (k : nat) :
  Nat.iter (S k) (fun zeta => 1 + zeta * a) 1
  - Nat.iter k (fun zeta => 1 + zeta * a) 1
  == a ^ (Z.of_nat k + 1).
Proof.
  induction k as [|k IH].
  - cbn. ring.
  - set (F := fun zeta : Q => 1 + zeta * a) in *.
    change (Nat.iter (S (S k)) F 1) with (1 + Nat.iter (S k) F 1 * a).
    assert (Hz1 : Nat.iter (S k) F 1 == 1 + Nat.iter k F 1 * a)
      by reflexivity.
    set (z1 := Nat.iter (S k) F 1) in *.
    set (z := Nat.iter k F 1) in *.
    clearbody z1 z.
    assert (Hsplit : 1 + z1 * a - z1 == (z1 - z) * a)
      by (rewrite Hz1; ring).
    assert (Hpow : a ^ (Z.of_nat (S k) + 1) == a ^ (Z.of_nat k + 1) * a).
    { replace (Z.of_nat (S k) + 1)%Z with ((Z.of_nat k + 1) + 1)%Z by lia.
      rewrite Qpower_plus' by lia. reflexivity. }
    rewrite Hsplit, IH, Hpow. reflexivity.
Qed.

(** C8, as amended. For [f(u, x) = a*x + u] with [|a| < 1] the gradient [g]
    that the backward rule produces is the partial sum
    [1 + a + ... + a^(N+1) = (1 - a^(N+2)) / (1 - a)] of the geometric
    series, [N] being the count of the adjoint solve, [0 <= N <= max_iters];
    so it misses the analytic derivative [1 / (1 - a)] by exactly
    [a^(N+2) / (1 - a)].  The adjoint solve stopped on the cap
    ([N = max_iters]) or on the tolerance test
    [|a|^(N+1) <= 1e-5 + 1e-5 * |g|]. *)
Theorem linear_gradient_is_partial_geometric_sum
    (fuel : nat) (a u x_init : Q) (max_iters : Z) :
  Qabs a < 1 ->
  (0 <= max_iters)%Z ->
  (Z.to_nat max_iters < fuel)%nat ->
  exists (g : Q) (N : Z),
    grad_wrt_u fuel (linear_update a) u x_init max_iters [] = Some g
    /\ (0 <= N <= max_iters)%Z
    /\ g == (1 - a ^ (N + 2)) / (1 - a)
    /\ 1 / (1 - a) - g == a ^ (N + 2) / (1 - a)
    /\ (N = max_iters
        \/ Qabs (a ^ (N + 1)) <= (1 # 100000) + (1 # 100000) * Qabs g).
Proof.
  intros Ha Hm Hfuel.
  assert (Hne : ~ 1 - a == 0).
  { apply Qabs_Qlt_condition in Ha. lra. }
  destruct (fixed_point_fwd_saves (linear_update a) fuel u x_init max_iters
              [] Hfuel) as (x_star & _ & Hfwd).
  destruct (_fixed_point_run (fun zeta => 1 + zeta * a) fuel 1 max_iters
              Hm Hfuel) as (k & Hrun & Hcap & Hstop & _).
  exists (Nat.iter (S k) (fun zeta => 1 + zeta * a) 1), (Z.of_nat k).
  pose proof (adjoint_iterates_geometric a (S k)) as Hgeo.
  replace (Z.of_nat (S k) + 1)%Z with (Z.of_nat k + 2)%Z in Hgeo by lia.
  split; [|split; [lia|split; [|split]]].
  - unfold grad_wrt_u. rewrite Hfwd. cbn [bind].
    rewrite (fixed_point_rev_unfold (linear_update a) fuel u x_star
               max_iters [] 1 _ (Z.of_nat k) Hrun).
    reflexivity.
  - rewrite <- Hgeo. field. exact Hne.
  - assert (Hpow : a ^ (Z.of_nat k + 2)
                   == 1 - Nat.iter (S k) (fun zeta => 1 + zeta * a) 1
                          * (1 - a))
      by (rewrite Hgeo; ring).
    rewrite Hpow. field. exact Hne.
  - destruct Hstop as [Hstop|Hstop]; [left; exact Hstop | right].
    unfold tolerance_achieved in Hstop. cbn in Hstop.
    rewrite andb_true_r in Hstop. unfold jnp.isclose in Hstop.
    apply Qle_bool_iff in Hstop.
    rewrite <- (adjoint_iterates_step a k), Qabs_Qminus.
    exact Hstop.
Qed.

Lemma linear_gradient_is_partial_geometric_sum_witness :
  Qabs (1 # 2) < 1 /\ (0 <= 100)%Z /\ (Z.to_nat 100 < 101)%nat
  /\ exists (g : Q) (N : Z),
       grad_wrt_u 101 (linear_update (1 # 2)) 3 0 100 [] = Some g
       /\ (0 <= N <= 100)%Z
       /\ g == (1 - (1 # 2) ^ (N + 2)) / (1 - (1 # 2))
       /\ 1 / (1 - (1 # 2)) - g == (1 # 2) ^ (N + 2) / (1 - (1 # 2))
       /\ (N = 100%Z
           \/ Qabs ((1 # 2) ^ (N + 1))
              <= (1 # 100000) + (1 # 100000) * Qabs g).
Proof.
  split; [reflexivity|]. split; [lia|]. split; [simpl; lia|].
  apply (linear_gradient_is_partial_geometric_sum 101 (1 # 2) 3 0 100);
    [reflexivity | lia | simpl; lia].
Defined.

(** C8 as stated fails: for [a = 0.9], within [|a| < 1], and the generous
    cap [1000], the adjoint solve stops on its tolerance test after [86]
    rounds and the gradient is [9.99906], off the analytic derivative
    [1 / (1 - a) = 10] by [9.4e-4], more than [1e-4]. *)
Lemma linear_gradient_off_by_more_than_tolerance :
  ~ (forall (a u x_init : Q) (max_iters : Z) (fuel : nat) (g : Q),
       Qabs a < 1 ->
       (0 <= max_iters)%Z ->
       (Z.to_nat max_iters < fuel)%nat ->
       grad_wrt_u fuel (linear_update a) u x_init max_iters [] = Some g ->
       Qabs (g - 1 / (1 - a)) <= 1 # 10000).
Proof.
  intros Hclaim.
  destruct (grad_wrt_u 1001 (linear_update (9 # 10)) 1 0 1000 [])
    as [g|] eqn:Hg.
  - assert (Hnear : Qabs (g - 1 / (1 - (9 # 10))) <= 1 # 10000).
    { apply (Hclaim (9 # 10) 1 0 1000%Z 1001%nat g);
        [reflexivity | lia | simpl; lia | exact Hg]. }
    vm_compute in Hg. injection Hg as <-.
    vm_compute in Hnear. apply Hnear. reflexivity.
  - vm_compute in Hg. discriminate Hg.
Qed.

(** With [a = 0.5] the remainder is small: the adjoint solve stops after
    [15] rounds and the gradient is within [1e-4] of the analytic [2]. *)
Example linear_gradient_one_half :
  exists g : Q,
    grad_wrt_u 101 (linear_update (1 # 2)) 3 0 100 [] = Some g
    /\ Qabs (g - 2) <= 1 # 10000.
Proof.
  eexists. split; [vm_compute; reflexivity|].
  vm_compute. discriminate.
Qed.

(** * Further properties of the solver *)

(** A loop that returned returns the same with more fuel. *)
Lemma while_loop_more_fuel {S : Type} (cond : S -> bool) (body : S -> S)
    (fuel fuel' : nat) (s r : S) :
  lax.while_loop fuel cond body s = Some r ->
  (fuel <= fuel')%nat ->
  lax.while_loop fuel' cond body s = Some r.
Proof.
  revert fuel' s. induction fuel as [|fuel IH]; intros fuel' s Hrun Hle.
  - discriminate Hrun.
  - destruct fuel' as [|fuel']; [lia|].
    cbn in *. destruct (cond s); [|exact Hrun].
    apply IH; [exact Hrun | lia].
Qed.

Lemma _fixed_point_more_fuel {X : Type} `{PyTree X} (f : X -> X)
    (fuel fuel' : nat) (x_init : X) (max_iters : Z) (r : X * Z) :
  _fixed_point fuel f x_init max_iters = Some r ->
  (fuel <= fuel')%nat ->
  _fixed_point fuel' f x_init max_iters = Some r.
Proof.
  unfold _fixed_point. intros Hrun Hle.
  destruct (lax.while_loop fuel _ _ _) as [s|] eqn:Hloop; [|discriminate].
  rewrite (while_loop_more_fuel _ _ fuel fuel' _ s Hloop Hle).
  exact Hrun.
Qed.

(** What a returned pair says about the run, whatever the fuel was. *)
Lemma _fixed_point_returned {X : Type} `{PyTree X} (f : X -> X)
    (fuel : nat) (x_init : X) (max_iters : Z) (x : X) (N : Z) :
  (0 <= max_iters)%Z ->
  _fixed_point fuel f x_init max_iters = Some (x, N) ->
  exists k : nat,
    N = Z.of_nat k
    /\ x = Nat.iter (S k) f x_init
    /\ (Z.of_nat k <= max_iters)%Z
    /\ (Z.of_nat k = max_iters
        \/ tolerance_achieved (Nat.iter k f x_init)
             (Nat.iter (S k) f x_init) = true)
    /\ (forall j : nat, (j < k)%nat ->
          tolerance_achieved (Nat.iter j f x_init)
            (Nat.iter (S j) f x_init) = false).
Proof.
  intros Hm Hret.
  set (big := Nat.max fuel (S (Z.to_nat max_iters))).
  assert (Hbig : _fixed_point big f x_init max_iters = Some (x, N))
    by (apply (_fixed_point_more_fuel f fuel big); [exact Hret | lia]).
  destruct (_fixed_point_run f big x_init max_iters Hm)
    as (k & Hrun & Hcap & Hstop & Hnot); [lia|].
  rewrite Hrun in Hbig. injection Hbig as Hx HN.
  exists k. repeat split; auto.
Qed.



(** X2. Raising the cap leaves a converged run alone: when the solver
    under the cap [max_iters] returns [(x, N)] with [N] below the cap, it
    returns the same [(x, N)] under every larger cap. *)
Theorem raising_cap_keeps_converged_result {X : Type} `{PyTree X}
    (f : X -> X) (fuel fuel' : nat) (x_init x : X) (max_iters cap' N : Z) :
  (0 <= max_iters <= cap')%Z ->
  (Z.to_nat cap' < fuel')%nat ->
  _fixed_point fuel f x_init max_iters = Some (x, N) ->
  (N < max_iters)%Z ->
  _fixed_point fuel' f x_init cap' = Some (x, N).
Proof.
  intros [Hm Hle] Hfuel' Hret Hlt.
  destruct (_fixed_point_returned f fuel x_init max_iters x N Hm Hret)
    as (k & HN & Hx & _ & Hstop & Hnot).
  destruct (_fixed_point_run f fuel' x_init cap')
    as (k' & Hrun' & Hcap' & Hstop' & Hnot'); [lia | exact Hfuel' |].
  assert (Hk : tolerance_achieved (Nat.iter k f x_init)
                 (Nat.iter (S k) f x_init) = true)
    by (destruct Hstop as [Hs|Hs]; [lia | exact Hs]).
  assert (Hsame : k' = k).
  { destruct (Nat.lt_trichotomy k' k) as [Hlt'|[Heq|Hgt]].
    - exfalso. destruct Hstop' as [Hs|Hs]; [lia|].
      rewrite (Hnot k' Hlt') in Hs. discriminate Hs.
    - exact Heq.
    - exfalso. rewrite (Hnot' k Hgt) in Hk. discriminate Hk. }
  rewrite Hrun', Hsame, HN, Hx. reflexivity.
Qed.

Lemma raising_cap_keeps_converged_result_witness :
  (0 <= 100 <= 1000)%Z /\ (Z.to_nat 1000 < 1001)%nat
  /\ _fixed_point 101 contraction_map 0 100
     = Some (Nat.iter 17 contraction_map 0, 16%Z)
  /\ (16 < 100)%Z
  /\ _fixed_point 1001 contraction_map 0 1000
     = Some (Nat.iter 17 contraction_map 0, 16%Z).
Proof.
  assert (Hrun : _fixed_point 101 contraction_map 0 100
                 = Some (Nat.iter 17 contraction_map 0, 16%Z))
    by (vm_compute; reflexivity).
  split; [lia|]. split; [simpl; lia|]. split; [exact Hrun|]. split; [lia|].
  apply (raising_cap_keeps_converged_result contraction_map 101 1001
           0 _ 100 1000 16); [lia | simpl; lia | exact Hrun | lia].
Defined.

(** X3. A negative cap is accepted and acts as the cap [0]: the loop body
    never runs and [(f x_init, 0)] is returned, so the count returned is
    above the cap. *)
Theorem negative_cap_acts_as_zero {X : Type} `{PyTree X} (f : X -> X)
    (fuel : nat) (x_init : X) (max_iters : Z) :
  (max_iters < 0)%Z ->
  _fixed_point (S fuel) f x_init max_iters = Some (f x_init, 0%Z)
  /\ _fixed_point (S fuel) f x_init max_iters
     = _fixed_point (S fuel) f x_init 0
  /\ (max_iters < 0)%Z.
Proof.
  intros Hneg.
  rewrite !(_fixed_point_cap_nonpos f fuel x_init) by lia.
  repeat split. exact Hneg.
Qed.

Lemma negative_cap_acts_as_zero_witness :
  (-3 < 0)%Z
  /\ _fixed_point 1 expanding_map 5 (-3) = Some (expanding_map 5, 0%Z)
  /\ _fixed_point 1 expanding_map 5 (-3) = _fixed_point 1 expanding_map 5 0
  /\ (-3 < 0)%Z.
Proof.
  split; [lia|].
  apply (negative_cap_acts_as_zero expanding_map 0 5 (-3)). lia.
Defined.

Lemma Qmult_le_nonneg_l (z x y : Q) : 0 <= z -> x <= y -> z * x <= z * y.
Proof.
  intros Hz Hxy. rewrite (Qmult_comm z x), (Qmult_comm z y).
  apply Qmult_le_compat_r; assumption.
Qed.

(** The tolerance test on two scalars. *)
Lemma tolerance_achieved_scalar (a b : Q) :
  tolerance_achieved a b = true <->
  Qabs (a - b) <= (1 # 100000) + (1 # 100000) * Qabs b.
Proof.
  unfold tolerance_achieved. rewrite allclose_iff. cbn. split.
  - intros Hf. inversion Hf; subst. assumption.
  - intros Hab. constructor; [exact Hab | constructor].
Qed.

(** X4. For a scalar update that is Lipschitz with constant [L], a run
    that stops below the cap returns an approximate fixed point: the
    returned [x] has residual [|x - f x| <= L * (1e-5 + 1e-5 * |x|)]. *)
Theorem lipschitz_update_residual (f : Q -> Q) (L : Q) (fuel : nat)
    (x_init : Q) (max_iters : Z) :
  (forall a b : Q, Qabs (f a - f b) <= L * Qabs (a - b)) ->
  (0 <= max_iters)%Z ->
  (Z.to_nat max_iters < fuel)%nat ->
  exists (x : Q) (N : Z),
    _fixed_point fuel f x_init max_iters = Some (x, N)
    /\ ((N < max_iters)%Z ->
        Qabs (x - f x) <= L * ((1 # 100000) + (1 # 100000) * Qabs x)).
Proof.
  intros Hlip Hm Hfuel.
  assert (HL : 0 <= L).
  { pose proof (Hlip 0 1) as H01. pose proof (Qabs_nonneg (f 0 - f 1)).
    change (Qabs (0 - 1)) with 1 in H01. lra. }
  destruct (_fixed_point_run f fuel x_init max_iters Hm Hfuel)
    as (k & Hrun & _ & Hstop & _).
  exists (Nat.iter (S k) f x_init), (Z.of_nat k).
  split; [exact Hrun|]. intros Hlt.
  destruct Hstop as [Hstop|Hstop]; [lia|].
  apply tolerance_achieved_scalar in Hstop.
  cbn [Nat.iter nat_rect] in *.
  set (x_prev := nat_rect _ _ _ k) in *.
  apply Qle_trans with (L * Qabs (x_prev - f x_prev)); [apply Hlip|].
  apply Qmult_le_nonneg_l; assumption.
Qed.

Lemma contraction_map_lipschitz (a b : Q) :
  Qabs (contraction_map a - contraction_map b) <= (1 # 2) * Qabs (a - b).
Proof.
  assert (E : contraction_map a - contraction_map b == (1 # 2) * (a - b))
    by (unfold contraction_map; ring).
  rewrite E, Qabs_Qmult. apply Qle_refl.
Qed.

Lemma lipschitz_update_residual_witness :
  (forall a b : Q,
     Qabs (contraction_map a - contraction_map b) <= (1 # 2) * Qabs (a - b))
  /\ (0 <= 100)%Z /\ (Z.to_nat 100 < 101)%nat
  /\ exists (x : Q) (N : Z),
       _fixed_point 101 contraction_map 0 100 = Some (x, N)
       /\ ((N < 100)%Z ->
           Qabs (x - contraction_map x)
           <= (1 # 2) * ((1 # 100000) + (1 # 100000) * Qabs x)).
Proof.
  split; [exact contraction_map_lipschitz|]. split; [lia|].
  split; [simpl; lia|].
  apply (lipschitz_update_residual contraction_map (1 # 2) 101 0 100);
    [exact contraction_map_lipschitz | lia | simpl; lia].
Defined.

(** The iterates of [x => a*x + u] keep their distance to the fixed point
    [u / (1 - a)] up to the factor [a] per step. *)
Lemma linear_iterates_closed_form (a u x_init : Q) (k : nat) :
  ~ 1 - a == 0 ->
  Nat.iter k (fun x => a * x + u) x_init - u / (1 - a)
  == a ^ Z.of_nat k * (x_init - u / (1 - a)).
Proof.
  intros Hne. induction k as [|k IH].
  - cbn. ring.
  - set (F := fun x : Q => a * x + u) in *.
    change (Nat.iter (S k) F x_init) with (a * Nat.iter k F x_init + u).
    set (z := Nat.iter k F x_init) in *. clearbody z.
    assert (Hstep : a * z + u - u / (1 - a) == a * (z - u / (1 - a)))
      by (field; exact Hne).
    assert (Hpow : a ^ Z.of_nat (S k) == a ^ Z.of_nat k * a).
    { replace (Z.of_nat (S k)) with (Z.of_nat k + 1)%Z by lia.
      rewrite Qpower_plus' by lia. reflexivity. }
    rewrite Hstep, IH, Hpow. ring.
Qed.

(** X5. For the linear update [f(u, x) = a*x + u] with [|a| < 1] the value
    [x] that the solver returns lies at [a^(N+1) * (x_init - x_star)] from
    the fixed point [x_star = u / (1 - a)], [N] being the count returned;
    and when the run stops below the cap,
    [(1 - a) * |x - x_star| <= |a| * (1e-5 + 1e-5 * |x|)]. *)
Theorem linear_update_forward_error (fuel : nat) (a u x_init : Q)
    (max_iters : Z) :
  Qabs a < 1 ->
  (0 <= max_iters)%Z ->
  (Z.to_nat max_iters < fuel)%nat ->
  exists (x : Q) (N : Z),
    _fixed_point fuel (fun x => call (linear_update a) u x []) x_init
      max_iters = Some (x, N)
    /\ fixed_point fuel (linear_update a) u x_init max_iters [] = Some x
    /\ (0 <= N <= max_iters)%Z
    /\ x - u / (1 - a) == a ^ (N + 1) * (x_init - u / (1 - a))
    /\ ((N < max_iters)%Z ->
        (1 - a) * Qabs (x - u / (1 - a))
        <= Qabs a * ((1 # 100000) + (1 # 100000) * Qabs x)).
Proof.
  intros Ha Hm Hfuel.
  assert (Hpos : 0 < 1 - a) by (apply Qabs_Qlt_condition in Ha; lra).
  assert (Hne : ~ 1 - a == 0) by lra.
  change (fun x : Q => call (linear_update a) u x [])
    with (fun x : Q => a * x + u).
  destruct (_fixed_point_run (fun x => a * x + u) fuel x_init max_iters
              Hm Hfuel) as (k & Hrun & Hcap & Hstop & _).
  exists (Nat.iter (S k) (fun x => a * x + u) x_init), (Z.of_nat k).
  split; [exact Hrun|]. split; [|split; [lia|split]].
  - unfold fixed_point.
    change (fun x : Q => call (linear_update a) u x [])
      with (fun x : Q => a * x + u).
    rewrite Hrun. reflexivity.
  - replace (Z.of_nat k + 1)%Z with (Z.of_nat (S k)) by lia.
    apply linear_iterates_closed_form. exact Hne.
  - intros Hlt. destruct Hstop as [Hstop|Hstop]; [lia|].
    apply tolerance_achieved_scalar in Hstop.
    set (F := fun x : Q => a * x + u) in *.
    change (Nat.iter (S k) F x_init) with (a * Nat.iter k F x_init + u)
      in *.
    set (z := Nat.iter k F x_init) in *. clearbody z.
    assert (Hgap : (1 - a) * (a * z + u - u / (1 - a))
                   == a * (z - (a * z + u)))
      by (field; exact Hne).
    assert (Habs : (1 - a) * Qabs (a * z + u - u / (1 - a))
                   == Qabs a * Qabs (z - (a * z + u))).
    { rewrite <- (Qabs_pos (1 - a)) at 1 by lra.
      rewrite <- Qabs_Qmult, Hgap, Qabs_Qmult. reflexivity. }
    rewrite Habs. apply Qmult_le_nonneg_l; [apply Qabs_nonneg | exact Hstop].
Qed.

Lemma linear_update_forward_error_witness :
  Qabs (1 # 2) < 1 /\ (0 <= 100)%Z /\ (Z.to_nat 100 < 101)%nat
  /\ exists (x : Q) (N : Z),
       _fixed_point 101 (fun x => call (linear_update (1 # 2)) 3 x []) 0
         100 = Some (x, N)
       /\ fixed_point 101 (linear_update (1 # 2)) 3 0 100 [] = Some x
       /\ (0 <= N <= 100)%Z
       /\ x - 3 / (1 - (1 # 2))
          == (1 # 2) ^ (N + 1) * (0 - 3 / (1 - (1 # 2)))
       /\ ((N < 100)%Z ->
           (1 - (1 # 2)) * Qabs (x - 3 / (1 - (1 # 2)))
           <= Qabs (1 # 2) * ((1 # 100000) + (1 # 100000) * Qabs x)).
Proof.
  split; [reflexivity|]. split; [lia|]. split; [simpl; lia|].
  apply (linear_update_forward_error 101 (1 # 2) 3 0 100);
    [reflexivity | lia | simpl; lia].
Defined.

(** X6. An iterate without numeric leaves (such as [None]) passes the
    tolerance test vacuously: whatever [f] and the cap are, the loop body
    never runs and [(f x_init, 0)] is returned. *)
Theorem leafless_iterate_returns_at_once {X : Type} `{PyTree X}
    (f : X -> X) (fuel : nat) (x_init : X) (max_iters : Z) :
  ravel_pytree x_init = [] ->
  _fixed_point (S fuel) f x_init max_iters = Some (f x_init, 0%Z).
Proof.
  intros Hempty.
  assert (Hnext : ravel_pytree (f x_init) = []).
  { apply length_zero_iff_nil.
    rewrite (ravel_size (f x_init) x_init), Hempty. reflexivity. }
  unfold _fixed_point. cbn [lax.while_loop cond_fun].
  unfold tolerance_achieved. rewrite Hempty, Hnext. cbn.
  rewrite orb_true_r. reflexivity.
Qed.

Lemma leafless_iterate_returns_at_once_witness :
  ravel_pytree (tt, tt) = []
  /\ _fixed_point 1 (fun x : unit * unit => x) (tt, tt) 50
     = Some ((tt, tt), 0%Z).
Proof.
  split; [reflexivity|].
  apply (leafless_iterate_returns_at_once (fun x : unit * unit => x)
           0 (tt, tt) 50).
  reflexivity.
Defined.

(** X7. The absolute tolerance alone is enough to pass: two iterates whose
    flattenings differ by at most [1e-5] in every entry pass the
    convergence test, whatever their magnitude. *)
Theorem within_absolute_tolerance_passes {X : Type} `{PyTree X} (x_prev x : X) :
  Forall2 (fun a b => Qabs (a - b) <= 1 # 100000)
    (ravel_pytree x_prev) (ravel_pytree x) ->
  tolerance_achieved x_prev x = true.
Proof.
  intros Hnear. unfold tolerance_achieved. apply allclose_iff.
  induction Hnear as [|a b la lb Hab _ IH]; constructor; [|exact IH].
  unfold atol, jnp.default_rtol.
  pose proof (Qabs_nonneg b) as Hb.
  apply Qle_trans with (1 # 100000); [exact Hab|].
  assert (Hprod : 0 <= (1 # 100000) * Qabs b)
    by (apply Qmult_le_0_compat; [discriminate | exact Hb]).
  lra.
Qed.

Lemma within_absolute_tolerance_passes_witness :
  Forall2 (fun a b => Qabs (a - b) <= 1 # 100000)
    (ravel_pytree ((1, 2) : Q * Q))
    (ravel_pytree ((1000001 # 1000000, 2) : Q * Q))
  /\ tolerance_achieved ((1, 2) : Q * Q) (1000001 # 1000000, 2) = true.
Proof.
  assert (Hnear : Forall2 (fun a b => Qabs (a - b) <= 1 # 100000)
                    (ravel_pytree ((1, 2) : Q * Q))
                    (ravel_pytree ((1000001 # 1000000, 2) : Q * Q))).
  { cbn. repeat constructor; vm_compute; discriminate. }
  split; [exact Hnear|].
  apply (within_absolute_tolerance_passes ((1, 2) : Q * Q)
           (1000001 # 1000000, 2) Hnear).
Defined.

(** X8. With a cap that is not positive the backward rule does no adjoint
    iteration: the adjoint variable is [dLdx + vjp_x dLdx], the first two
    terms of the Neumann series, and the entry for [u] is [vjp_u] of it. *)
Theorem backward_rule_without_iterations {U X E : Type} `{PyTree X}
    (f : update_fun U X E) (fuel : nat) (u : U) (x : X) (max_iters : Z)
    (nondiff_args : list E) (dLdx : X) :
  (max_iters <= 0)%Z ->
  exists others : list (cotangent U),
    fixed_point_rev (S fuel) f (u, x, max_iters, nondiff_args) dLdx
    = Some (Grad (pullback_u f u x nondiff_args
                    (tree_multimap (fun a b => a + b) dLdx
                       (pullback_x f u x nondiff_args dLdx)))
            :: others).
Proof.
  intros Hcap. eexists.
  apply fixed_point_rev_unfold with (N := 0%Z).
  apply (_fixed_point_cap_nonpos
           (fun z => tree_multimap (fun a b => a + b) dLdx
                       (pullback_x f u x nondiff_args z))
           fuel dLdx max_iters Hcap).
Qed.

Lemma backward_rule_without_iterations_witness :
  (0 <= 0)%Z
  /\ exists others : list (cotangent Q),
       fixed_point_rev 1 (linear_update (1 # 2)) (3, 6, 0%Z, []) 1
       = Some (Grad (pullback_u (linear_update (1 # 2)) 3 6 []
                       (tree_multimap (fun a b => a + b) 1
                          (pullback_x (linear_update (1 # 2)) 3 6 [] 1)))
               :: others).
Proof.
  split; [lia|].
  apply (backward_rule_without_iterations (linear_update (1 # 2)) 0 3 6 0
           [] 1).
  lia.
Defined.

(** * Dictionaries *)

Lemma dict_get_set_same {V : Type} (d : dict.t V) (k : String.string) (v : V) :
  dict.get (dict.set d k v) k = Ok v.
Proof.
  induction d as [|[k' v'] d IH]; cbn.
  - rewrite String.eqb_refl. reflexivity.
  - destruct (String.eqb k' k) eqn:Hk; cbn; rewrite Hk; [reflexivity | exact IH].
Qed.

Lemma dict_get_set_other {V : Type} (d : dict.t V) (k k' : String.string)
    (v : V) :
  k <> k' -> dict.get (dict.set d k v) k' = dict.get d k'.
Proof.
  intros Hne. induction d as [|[k0 v0] d IH]; cbn.
  - destruct (String.eqb_spec k k'); [contradiction | reflexivity].
  - destruct (String.eqb_spec k0 k) as [->|Hk]; cbn.
    + destruct (String.eqb_spec k k'); [contradiction | reflexivity].
    + rewrite IH. reflexivity.
Qed.

Lemma dict_set_fresh {V : Type} (d : dict.t V) (k : String.string) (v : V) :
  ~ In k (map fst d) -> dict.set d k v = d ++ [(k, v)].
Proof.
  induction d as [|[k' v'] d IH]; cbn; intros Hfresh; [reflexivity|].
  destruct (String.eqb_spec k' k) as [->|Hk]; [tauto|].
  rewrite IH by tauto. reflexivity.
Qed.

Lemma dict_update_fresh {V : Type} (items d : dict.t V) :
  NoDup (map fst (d ++ items)) -> dict.update d items = d ++ items.
Proof.
  revert d. induction items as [|[k v] items IH]; intros d Hnd.
  - cbn. rewrite app_nil_r. reflexivity.
  - unfold dict.update in *. cbn [fold_left fst snd].
    assert (Hfresh : ~ In k (map fst d)).
    { rewrite map_app in Hnd. cbn in Hnd.
      apply NoDup_remove_2 in Hnd. intros Hin. apply Hnd.
      apply in_or_app. left. exact Hin. }
    rewrite (dict_set_fresh d k v Hfresh).
    rewrite IH; rewrite <- app_assoc; [reflexivity | exact Hnd].
Qed.

Lemma dict_of_items_nodup {V : Type} (items : list (String.string * V)) :
  NoDup (map fst items) -> dict.of_items items = items.
Proof.
  intros Hnd. unfold dict.of_items. apply (dict_update_fresh items dict.empty).
  exact Hnd.
Qed.

(** * The autoregressive masks *)

Lemma format_d_injective (i j : nat) :
  staxplusplus.format_d i = staxplusplus.format_d j -> i = j.
Proof.
  unfold staxplusplus.format_d. intros Heq.
  assert (Hu : Nat.to_uint i = Nat.to_uint j).
  { pose proof (DecimalString.NilEmpty.usu (Nat.to_uint i)) as Hi.
    pose proof (DecimalString.NilEmpty.usu (Nat.to_uint j)) as Hj.
    rewrite Heq in Hi. rewrite Hi in Hj. injection Hj as Hj. exact Hj. }
  rewrite <- (DecimalNat.Unsigned.of_to i), <- (DecimalNat.Unsigned.of_to j).
  rewrite Hu. reflexivity.
Qed.

Lemma mask_key_injective (i j : nat) :
  staxplusplus.mask_key i = staxplusplus.mask_key j -> i = j.
Proof.
  unfold staxplusplus.mask_key. cbn. intros Heq. injection Heq as Heq.
  apply format_d_injective. exact Heq.
Qed.

Lemma nth_error_arange (start stop : Z) (p : nat) (x : Z) :
  nth_error (staxplusplus.arange start stop) p = Some x ->
  x = (start + Z.of_nat p)%Z /\ (Z.of_nat p < stop - start)%Z.
Proof.
  unfold staxplusplus.arange. intros Hnth.
  rewrite nth_error_map in Hnth.
  destruct (nth_error (seq 0 (Z.to_nat (stop - start))) p) as [i|] eqn:Hseq;
    [|discriminate].
  assert (Hlen : (p < Z.to_nat (stop - start))%nat).
  { pose proof (proj1 (nth_error_Some
                          (seq 0 (Z.to_nat (stop - start))) p)) as Hin.
    rewrite length_seq in Hin. apply Hin. rewrite Hseq. discriminate. }
  rewrite nth_error_nth' with (d := 0%nat) in Hseq by (rewrite length_seq; lia).
  rewrite seq_nth in Hseq by lia.
  injection Hseq as <-. cbn in Hnth. injection Hnth as <-.
  split; lia.
Qed.

Lemma nth_error_arange_in_range (start stop : Z) (p : nat) :
  (Z.of_nat p < stop - start)%Z ->
  nth_error (staxplusplus.arange start stop) p = Some (start + Z.of_nat p)%Z.
Proof.
  intros Hlt. unfold staxplusplus.arange.
  rewrite nth_error_map.
  rewrite nth_error_nth' with (d := 0%nat) by (rewrite length_seq; lia).
  rewrite seq_nth by lia. reflexivity.
Qed.

Lemma length_arange (start stop : Z) :
  length (staxplusplus.arange start stop) = Z.to_nat (stop - start).
Proof.
  unfold staxplusplus.arange. rewrite length_map, length_seq. reflexivity.
Qed.

Lemma entry_outer_le (a b : list Z) (p q : nat) :
  staxplusplus.entry (staxplusplus.outer_le a b) p q = Some 1%Z <->
  exists x y : Z,
    nth_error a p = Some x /\ nth_error b q = Some y /\ (x <= y)%Z.
Proof.
  unfold staxplusplus.entry, staxplusplus.outer_le.
  rewrite nth_error_map.
  destruct (nth_error a p) as [x|]; cbn.
  - rewrite nth_error_map. destruct (nth_error b q) as [y|]; cbn.
    + destruct (Z.leb_spec x y); split.
      * intros _. exists x, y. auto.
      * reflexivity.
      * discriminate.
      * intros (x' & y' & Hx & Hy & Hle). injection Hx as <-.
        injection Hy as <-. lia.
    + split; [discriminate | intros (? & ? & _ & Hy & _); discriminate].
  - split; [discriminate | intros (? & ? & Hx & _); discriminate].
Qed.

Lemma entry_outer_lt (a b : list Z) (p q : nat) :
  staxplusplus.entry (staxplusplus.outer_lt a b) p q = Some 1%Z <->
  exists x y : Z,
    nth_error a p = Some x /\ nth_error b q = Some y /\ (x < y)%Z.
Proof.
  unfold staxplusplus.entry, staxplusplus.outer_lt.
  rewrite nth_error_map.
  destruct (nth_error a p) as [x|]; cbn.
  - rewrite nth_error_map. destruct (nth_error b q) as [y|]; cbn.
    + destruct (Z.ltb_spec x y); split.
      * intros _. exists x, y. auto.
      * reflexivity.
      * discriminate.
      * intros (x' & y' & Hx & Hy & Hle). injection Hx as <-.
        injection Hy as <-. lia.
    + split; [discriminate | intros (? & ? & _ & Hy & _); discriminate].
  - split; [discriminate | intros (? & ? & Hx & _); discriminate].
Qed.

Lemma last_cons_default {A : Type} (q p : A) (l : list A) :
  last (q :: l) p = last l q.
Proof.
  revert q p. induction l as [|a l IH]; intros q p; [reflexivity|].
  change (last (q :: a :: l) p) with (last (a :: l) p).
  rewrite (IH a p), (IH a q). reflexivity.
Qed.

(** Along an open path the degrees do not decrease. *)
Lemma mask_loop_path (dim : Z) (layer_sizes : list Z) :
  forall (prev_sel : list Z) (masks : list staxplusplus.matrix)
         (last_sel : list Z) (p : nat) (units : list nat) (dl : Z),
    staxplusplus.mask_loop dim layer_sizes prev_sel = (masks, last_sel) ->
    staxplusplus.path_open masks p units = true ->
    nth_error last_sel (last units p) = Some dl ->
    exists dp : Z, nth_error prev_sel p = Some dp /\ (dp <= dl)%Z.
Proof.
  induction layer_sizes as [|size rest IH];
    intros prev_sel masks last_sel p units dl Hloop Hpath Hlast.
  - cbn in Hloop. injection Hloop as <- <-.
    destruct units; [|discriminate Hpath].
    exists dl. split; [exact Hlast | lia].
  - cbn in Hloop.
    destruct (staxplusplus.mask_loop dim rest (staxplusplus.layer_sel dim size))
      as [masks' last'] eqn:Hrest.
    injection Hloop as <- <-.
    destruct units as [|q units]; [discriminate Hpath|].
    cbn in Hpath.
    destruct (staxplusplus.entry _ p q) as [[|[| |]|]|] eqn:Hentry;
      try discriminate Hpath.
    apply entry_outer_le in Hentry.
    destruct Hentry as (x & y & Hx & Hy & Hxy).
    rewrite last_cons_default in Hlast.
    destruct (IH _ _ _ q units dl Hrest Hpath Hlast) as (dq & Hq & Hdq).
    rewrite Hy in Hq. injection Hq as <-.
    exists x. split; [exact Hx | lia].
Qed.

Lemma mask_loop_length (dim : Z) (layer_sizes : list Z) :
  forall prev_sel : list Z,
    length (fst (staxplusplus.mask_loop dim layer_sizes prev_sel))
    = length layer_sizes.
Proof.
  induction layer_sizes as [|size rest IH]; intros prev_sel; [reflexivity|].
  cbn. specialize (IH (staxplusplus.layer_sel dim size)).
  destruct (staxplusplus.mask_loop dim rest _) as [masks last_sel].
  cbn in *. rewrite IH. reflexivity.
Qed.

Lemma dict_get_app_fresh {V : Type} (l1 l2 : dict.t V) (k : String.string) :
  ~ In k (map fst l1) -> dict.get (l1 ++ l2) k = dict.get l2 k.
Proof.
  induction l1 as [|[k' v'] l1 IH]; cbn; intros Hfresh; [reflexivity|].
  destruct (String.eqb_spec k' k) as [->|Hk]; [tauto|].
  apply IH. tauto.
Qed.

Lemma mask_keys_of_items (masks : list staxplusplus.matrix) (s : nat) :
  map fst (map (fun jm : nat * staxplusplus.matrix =>
                  (staxplusplus.mask_key (fst jm), snd jm))
             (combine (seq s (length masks)) masks))
  = map staxplusplus.mask_key (seq s (length masks)).
Proof.
  revert s. induction masks as [|m masks IH]; intros s; [reflexivity|].
  cbn. rewrite IH. reflexivity.
Qed.

Lemma mask_keys_nodup (s n : nat) :
  NoDup (map staxplusplus.mask_key (seq s n)).
Proof.
  apply Finite.Injective_map_NoDup; [|apply seq_NoDup].
  intros i j. apply mask_key_injective.
Qed.

Lemma not_a_mask_key (k : String.string) (s n : nat) :
  (forall j : nat, staxplusplus.mask_key j <> k) ->
  ~ In k (map staxplusplus.mask_key (seq s n)).
Proof.
  intros Hk Hin. apply in_map_iff in Hin. destruct Hin as (j & Hj & _).
  exact (Hk j Hj).
Qed.

Lemma skip_not_a_mask_key (j : nat) : staxplusplus.mask_key j <> "skip"%string.
Proof. unfold staxplusplus.mask_key. cbn. discriminate. Qed.

Lemma mu_not_a_mask_key (j : nat) : staxplusplus.mask_key j <> "mu"%string.
Proof. unfold staxplusplus.mask_key. cbn. discriminate. Qed.

Lemma alpha_not_a_mask_key (j : nat) :
  staxplusplus.mask_key j <> "alpha"%string.
Proof. unfold staxplusplus.mask_key. cbn. discriminate. Qed.

(** The items of the dictionary, in order. *)
Lemma build_autoregressive_masks_items (dim : Z) (hidden : list Z)
    (reverse : bool) (masks : list staxplusplus.matrix) (prev_sel : list Z) :
  staxplusplus.mask_loop dim (hidden ++ [dim])
    (staxplusplus.input_degrees dim reverse) = (masks, prev_sel) ->
  staxplusplus.build_autoregressive_masks dim hidden reverse
  = map (fun jm : nat * staxplusplus.matrix =>
           (staxplusplus.mask_key (fst jm), snd jm))
      (staxplusplus.enumerate masks)
    ++ [("skip"%string,
         staxplusplus.outer_lt (staxplusplus.input_degrees dim reverse)
           (staxplusplus.input_degrees dim reverse));
        ("mu"%string,
         staxplusplus.outer_lt prev_sel
           (staxplusplus.input_degrees dim reverse));
        ("alpha"%string,
         staxplusplus.outer_lt prev_sel
           (staxplusplus.input_degrees dim reverse))].
Proof.
  intros Hloop. unfold staxplusplus.build_autoregressive_masks.
  rewrite Hloop. unfold staxplusplus.enumerate.
  set (items := map _ (combine _ masks)).
  assert (Hkeys : map fst items
                  = map staxplusplus.mask_key (seq 0 (length masks)))
    by apply mask_keys_of_items.
  rewrite dict_of_items_nodup by (rewrite Hkeys; apply mask_keys_nodup).
  rewrite (dict_set_fresh items "skip"%string)
    by (rewrite Hkeys; apply not_a_mask_key, skip_not_a_mask_key).
  rewrite (dict_set_fresh (items ++ _) "mu"%string).
  2:{ rewrite map_app, Hkeys. cbn. intros Hin. apply in_app_or in Hin.
      destruct Hin as [Hin|[Hin|[]]]; [|discriminate Hin].
      revert Hin. apply not_a_mask_key, mu_not_a_mask_key. }
  rewrite dict_set_fresh.
  2:{ rewrite !map_app, Hkeys. cbn. intros Hin. apply in_app_or in Hin.
      destruct Hin as [Hin|Hin].
      - apply in_app_or in Hin. destruct Hin as [Hin|[Hin|[]]];
          [|discriminate Hin].
        revert Hin. apply not_a_mask_key, alpha_not_a_mask_key.
      - destruct Hin as [Hin|[]]. discriminate Hin. }
  rewrite <- !app_assoc. reflexivity.
Qed.

Lemma read_masks_items (masks : list staxplusplus.matrix) :
  forall (s : nat) (prefix tail : dict.t staxplusplus.matrix),
    (forall j : nat, (s <= j)%nat ->
       ~ In (staxplusplus.mask_key j) (map fst prefix)) ->
    staxplusplus.read_masks
      (prefix
       ++ map (fun jm : nat * staxplusplus.matrix =>
                 (staxplusplus.mask_key (fst jm), snd jm))
            (combine (seq s (length masks)) masks)
       ++ tail)
      (map staxplusplus.mask_key (seq s (length masks)))
    = Ok masks.
Proof.
  induction masks as [|m masks IH]; intros s prefix tail Hfresh;
    [reflexivity|].
  cbn [length seq combine map staxplusplus.read_masks app].
  rewrite dict_get_app_fresh by (apply Hfresh; lia).
  cbn [dict.get fst snd]. rewrite String.eqb_refl.
  cbn [and_then].
  specialize (IH (S s) (prefix ++ [(staxplusplus.mask_key s, m)]) tail).
  rewrite <- app_assoc in IH. cbn [app] in IH.
  rewrite IH; [reflexivity|].
  intros j Hj Hin. rewrite map_app in Hin. apply in_app_or in Hin.
  destruct Hin as [Hin|[Hin|[]]].
  - revert Hin. apply Hfresh. lia.
  - cbn in Hin. apply mask_key_injective in Hin. lia.
Qed.

(** The hidden masks are read back from the dictionary as the loop made
    them. *)
Lemma hidden_masks_of_build (dim : Z) (hidden : list Z) (reverse : bool) :
  staxplusplus.hidden_masks
    (staxplusplus.build_autoregressive_masks dim hidden reverse)
    (S (length hidden))
  = Ok (fst (staxplusplus.mask_loop dim (hidden ++ [dim])
               (staxplusplus.input_degrees dim reverse))).
Proof.
  pose proof (mask_loop_length dim (hidden ++ [dim])
                (staxplusplus.input_degrees dim reverse)) as Hlen.
  destruct (staxplusplus.mask_loop dim (hidden ++ [dim]) _)
    as [masks prev_sel] eqn:Hloop.
  cbn [fst] in *. rewrite length_app, Nat.add_1_r in Hlen.
  rewrite (build_autoregressive_masks_items dim hidden reverse masks
             prev_sel Hloop).
  unfold staxplusplus.hidden_masks, staxplusplus.enumerate.
  rewrite <- Hlen.
  apply (read_masks_items masks 0 []). intros j _ [].
Qed.

Lemma mu_of_build (dim : Z) (hidden : list Z) (reverse : bool) :
  dict.get (staxplusplus.build_autoregressive_masks dim hidden reverse)
    "mu"%string
  = Ok (staxplusplus.outer_lt
          (snd (staxplusplus.mask_loop dim (hidden ++ [dim])
                  (staxplusplus.input_degrees dim reverse)))
          (staxplusplus.input_degrees dim reverse)).
Proof.
  destruct (staxplusplus.mask_loop dim (hidden ++ [dim]) _)
    as [masks prev_sel] eqn:Hloop.
  rewrite (build_autoregressive_masks_items dim hidden reverse masks
             prev_sel Hloop).
  rewrite dict_get_app_fresh.
  - reflexivity.
  - unfold staxplusplus.enumerate. rewrite mask_keys_of_items.
    apply not_a_mask_key, mu_not_a_mask_key.
Qed.

Lemma skip_of_build (dim : Z) (hidden : list Z) (reverse : bool) :
  dict.get (staxplusplus.build_autoregressive_masks dim hidden reverse)
    "skip"%string
  = Ok (staxplusplus.outer_lt (staxplusplus.input_degrees dim reverse)
          (staxplusplus.input_degrees dim reverse)).
Proof.
  destruct (staxplusplus.mask_loop dim (hidden ++ [dim])
              (staxplusplus.input_degrees dim reverse))
    as [masks prev_sel] eqn:Hloop.
  rewrite (build_autoregressive_masks_items dim hidden reverse masks
             prev_sel Hloop).
  rewrite dict_get_app_fresh.
  - reflexivity.
  - unfold staxplusplus.enumerate. rewrite mask_keys_of_items.
    apply not_a_mask_key, skip_not_a_mask_key.
Qed.

Lemma nth_error_input_degrees (dim : Z) (reverse : bool) (p : nat) (x : Z) :
  nth_error (staxplusplus.input_degrees dim reverse) p = Some x <->
  (Z.of_nat p < dim)%Z
  /\ x = (if reverse then dim - Z.of_nat p else 1 + Z.of_nat p)%Z.
Proof.
  unfold staxplusplus.input_degrees.
  destruct reverse.
  - split.
    + intros Hnth. rewrite nth_error_rev, length_arange in Hnth.
      destruct (Nat.ltb_spec p (Z.to_nat (dim + 1 - 1))) as [Hlen|Hlen];
        [|discriminate Hnth].
      apply nth_error_arange in Hnth. lia.
    + intros [Hp ->]. rewrite nth_error_rev, length_arange.
      destruct (Nat.ltb_spec p (Z.to_nat (dim + 1 - 1))) as [Hlen|Hlen];
        [|lia].
      rewrite nth_error_arange_in_range by lia.
      f_equal. lia.
  - split.
    + intros Hnth. apply nth_error_arange in Hnth. lia.
    + intros [Hp ->]. apply nth_error_arange_in_range. lia.
Qed.

(** X9. The masks make the network autoregressive.  Take any path from the
    input [p] through one unit of each masked layer to the output [q] of
    the mean (or log-scale) head, every weight of which is let through by
    its mask: then [p < q], or [q < p] when [reverse] is set.  So an output
    never depends on its own input or on a later one. *)
Theorem masks_are_autoregressive (dim : Z) (hidden_layer_sizes : list Z)
    (reverse : bool) (masks : list staxplusplus.matrix)
    (out_mask : staxplusplus.matrix) (p q : nat) (units : list nat) :
  staxplusplus.hidden_masks
    (staxplusplus.build_autoregressive_masks dim hidden_layer_sizes reverse)
    (S (length hidden_layer_sizes)) = Ok masks ->
  dict.get
    (staxplusplus.build_autoregressive_masks dim hidden_layer_sizes reverse)
    "mu"%string = Ok out_mask ->
  staxplusplus.path_open masks p units = true ->
  staxplusplus.entry out_mask (last units p) q = Some 1%Z ->
  if reverse then (q < p)%nat else (p < q)%nat.
Proof.
  intros Hmasks Hout Hpath Hentry.
  rewrite hidden_masks_of_build in Hmasks. injection Hmasks as Hmasks.
  rewrite mu_of_build in Hout. injection Hout as Hout.
  destruct (staxplusplus.mask_loop dim (hidden_layer_sizes ++ [dim]) _)
    as [masks' prev_sel] eqn:Hloop.
  cbn [fst snd] in *. subst masks' out_mask.
  apply entry_outer_lt in Hentry.
  destruct Hentry as (dl & dq & Hl & Hq & Hlt).
  destruct (mask_loop_path dim _ _ _ _ p units dl Hloop Hpath Hl)
    as (dp & Hp & Hle).
  apply nth_error_input_degrees in Hp, Hq.
  destruct reverse; lia.
Qed.

Lemma masks_are_autoregressive_witness :
  staxplusplus.hidden_masks
    (staxplusplus.build_autoregressive_masks 3 [4%Z] false) 2
  = Ok [[[1; 1; 1; 1]; [0; 1; 0; 1]; [0; 0; 0; 0]];
        [[1; 1; 1]; [0; 1; 0]; [1; 1; 1]; [0; 1; 0]]]%Z
  /\ dict.get (staxplusplus.build_autoregressive_masks 3 [4%Z] false)
       "mu"%string
     = Ok [[0; 1; 1]; [0; 0; 1]; [0; 1; 1]]%Z
  /\ staxplusplus.path_open
       [[[1; 1; 1; 1]; [0; 1; 0; 1]; [0; 0; 0; 0]];
        [[1; 1; 1]; [0; 1; 0]; [1; 1; 1]; [0; 1; 0]]]%Z 0 [1; 1]%nat = true
  /\ staxplusplus.entry [[0; 1; 1]; [0; 0; 1]; [0; 1; 1]]%Z
       (last [1; 1]%nat 0%nat) 2 = Some 1%Z
  /\ (0 < 2)%nat.
Proof.
  split; [vm_compute; reflexivity|]. split; [vm_compute; reflexivity|].
  split; [vm_compute; reflexivity|]. split; [vm_compute; reflexivity|].
  apply (masks_are_autoregressive 3 [4%Z] false
           [[[1; 1; 1; 1]; [0; 1; 0; 1]; [0; 0; 0; 0]];
            [[1; 1; 1]; [0; 1; 0]; [1; 1; 1]; [0; 1; 0]]]%Z
           [[0; 1; 1]; [0; 0; 1]; [0; 1; 1]]%Z 0 2 [1; 1]%nat);
    vm_compute; reflexivity.
Defined.

(** X10. The mask of the skip connection lets the weight from input [p] to
    output [q] through exactly when [p < q] (when [q < p], with [reverse]),
    both below [dim]: it is strictly triangular, and no output sees its own
    input. *)
Theorem skip_mask_is_strictly_triangular (dim : Z)
    (hidden_layer_sizes : list Z) (reverse : bool) :
  exists skip_mask : staxplusplus.matrix,
    dict.get
      (staxplusplus.build_autoregressive_masks dim hidden_layer_sizes
         reverse) "skip"%string = Ok skip_mask
    /\ forall p q : nat,
         staxplusplus.entry skip_mask p q = Some 1%Z <->
         (Z.of_nat p < dim)%Z /\ (Z.of_nat q < dim)%Z
         /\ (if reverse then (q < p)%nat else (p < q)%nat).
Proof.
  eexists. split; [apply skip_of_build|].
  intros p q. rewrite entry_outer_lt. split.
  - intros (x & y & Hx & Hy & Hlt).
    apply nth_error_input_degrees in Hx, Hy. destruct reverse; lia.
  - intros (Hp & Hq & Horder).
    exists (if reverse then dim - Z.of_nat p else 1 + Z.of_nat p)%Z,
           (if reverse then dim - Z.of_nat q else 1 + Z.of_nat q)%Z.
    rewrite !nth_error_input_degrees. destruct reverse; repeat split; lia.
Qed.

(** X11. The dictionary returned has the keys [mask_0] ... [mask_n], one
    per hidden layer and one more, then [skip], [mu] and [alpha], in this
    order and no others; [mu] and [alpha] hold the same mask. *)
Theorem mask_dictionary_keys (dim : Z) (hidden_layer_sizes : list Z)
    (reverse : bool) :
  map fst
    (staxplusplus.build_autoregressive_masks dim hidden_layer_sizes reverse)
  = map staxplusplus.mask_key (seq 0 (S (length hidden_layer_sizes)))
    ++ ["skip"; "mu"; "alpha"]%string
  /\ dict.get
       (staxplusplus.build_autoregressive_masks dim hidden_layer_sizes
          reverse) "mu"%string
     = dict.get
         (staxplusplus.build_autoregressive_masks dim hidden_layer_sizes
            reverse) "alpha"%string.
Proof.
  pose proof (mask_loop_length dim (hidden_layer_sizes ++ [dim])
                (staxplusplus.input_degrees dim reverse)) as Hlen.
  destruct (staxplusplus.mask_loop dim (hidden_layer_sizes ++ [dim]) _)
    as [masks prev_sel] eqn:Hloop.
  cbn [fst] in Hlen. rewrite length_app, Nat.add_1_r in Hlen.
  rewrite (build_autoregressive_masks_items dim hidden_layer_sizes reverse
             masks prev_sel Hloop).
  unfold staxplusplus.enumerate. split.
  - rewrite map_app, mask_keys_of_items, Hlen. reflexivity.
  - rewrite !dict_get_app_fresh
      by (rewrite mask_keys_of_items;
          first [apply not_a_mask_key, mu_not_a_mask_key
                | apply not_a_mask_key, alpha_not_a_mask_key]).
    reflexivity.
Qed.

Lemma length_layer_sel (dim size : Z) :
  length (staxplusplus.layer_sel dim size) = Z.to_nat size.
Proof.
  unfold staxplusplus.layer_sel. rewrite length_map, length_arange.
  f_equal. lia.
Qed.

Lemma length_input_degrees (dim : Z) (reverse : bool) :
  length (staxplusplus.input_degrees dim reverse) = Z.to_nat dim.
Proof.
  unfold staxplusplus.input_degrees.
  destruct reverse; rewrite ?length_rev, length_arange; f_equal; lia.
Qed.

Lemma outer_le_shape (a b : list Z) :
  length (staxplusplus.outer_le a b) = length a
  /\ Forall (fun row => length row = length b) (staxplusplus.outer_le a b).
Proof.
  unfold staxplusplus.outer_le. split; [apply length_map|].
  apply Forall_map, Forall_forall. intros p _. apply length_map.
Qed.

Lemma mask_loop_shapes (dim : Z) (layer_sizes : list Z) :
  forall (prev_sel : list Z) (j : nat) (m : staxplusplus.matrix),
    nth_error (fst (staxplusplus.mask_loop dim layer_sizes prev_sel)) j
    = Some m ->
    length m = nth j (length prev_sel :: map Z.to_nat layer_sizes) 0%nat
    /\ Forall (fun row => length row = nth j (map Z.to_nat layer_sizes) 0%nat)
         m.
Proof.
  induction layer_sizes as [|size rest IH]; intros prev_sel j m Hnth.
  - destruct j; discriminate Hnth.
  - cbn in Hnth.
    specialize (IH (staxplusplus.layer_sel dim size)).
    destruct (staxplusplus.mask_loop dim rest _) as [masks last_sel].
    cbn [fst] in *. destruct j as [|j].
    + cbn in Hnth. injection Hnth as <-.
      destruct (outer_le_shape prev_sel (staxplusplus.layer_sel dim size))
        as [Hrows Hcols].
      rewrite length_layer_sel in Hcols. split; assumption.
    + cbn in Hnth. destruct (IH j m Hnth) as [Hrows Hcols].
      rewrite length_layer_sel in Hrows. split; assumption.
Qed.

(** X12. Every hidden mask fits the weight matrix it is multiplied with:
    [mask_j] has one row for each unit of the layer before (the [dim]
    inputs for [j = 0]) and one column for each unit of layer [j], the last
    layer having [dim] units. *)
Theorem hidden_mask_shapes (dim : Z) (hidden_layer_sizes : list Z)
    (reverse : bool) (masks : list staxplusplus.matrix) (j : nat)
    (m : staxplusplus.matrix) :
  staxplusplus.hidden_masks
    (staxplusplus.build_autoregressive_masks dim hidden_layer_sizes reverse)
    (S (length hidden_layer_sizes)) = Ok masks ->
  nth_error masks j = Some m ->
  length m = Z.to_nat (nth j (dim :: hidden_layer_sizes) 0%Z)
  /\ Forall
       (fun row =>
          length row = Z.to_nat (nth j (hidden_layer_sizes ++ [dim]) 0%Z))
       m.
Proof.
  intros Hmasks Hnth.
  rewrite hidden_masks_of_build in Hmasks. injection Hmasks as <-.
  destruct (mask_loop_shapes dim _ _ j m Hnth) as [Hrows Hcols].
  rewrite length_input_degrees in Hrows.
  assert (Hj : (j < length (hidden_layer_sizes ++ [dim]))%nat).
  { rewrite <- (mask_loop_length dim (hidden_layer_sizes ++ [dim])
                  (staxplusplus.input_degrees dim reverse)).
    apply nth_error_Some. rewrite Hnth. discriminate. }
  split.
  - rewrite Hrows. change (Z.to_nat dim :: map Z.to_nat
                             (hidden_layer_sizes ++ [dim]))
      with (map Z.to_nat (dim :: hidden_layer_sizes ++ [dim])).
    change 0%nat with (Z.to_nat 0). rewrite map_nth. f_equal.
    change (dim :: hidden_layer_sizes ++ [dim])
      with ((dim :: hidden_layer_sizes) ++ [dim]).
    apply app_nth1. rewrite length_app in Hj. cbn in *. lia.
  - eapply Forall_impl; [|exact Hcols].
    intros row Hrow. rewrite Hrow.
    change 0%nat with (Z.to_nat 0). rewrite map_nth. reflexivity.
Qed.

Lemma hidden_mask_shapes_witness :
  staxplusplus.hidden_masks
    (staxplusplus.build_autoregressive_masks 3 [4%Z] false) 2
  = Ok [[[1; 1; 1; 1]; [0; 1; 0; 1]; [0; 0; 0; 0]];
        [[1; 1; 1]; [0; 1; 0]; [1; 1; 1]; [0; 1; 0]]]%Z
  /\ nth_error [[[1; 1; 1; 1]; [0; 1; 0; 1]; [0; 0; 0; 0]];
                [[1; 1; 1]; [0; 1; 0]; [1; 1; 1]; [0; 1; 0]]]%Z 1
     = Some [[1; 1; 1]; [0; 1; 0]; [1; 1; 1]; [0; 1; 0]]%Z
  /\ length [[1; 1; 1]; [0; 1; 0]; [1; 1; 1]; [0; 1; 0]]%Z = 4%nat
  /\ Forall (fun row : list Z => length row = 3%nat)
       [[1; 1; 1]; [0; 1; 0]; [1; 1; 1]; [0; 1; 0]]%Z.
Proof.
  split; [vm_compute; reflexivity|]. split; [reflexivity|].
  apply (hidden_mask_shapes 3 [4%Z] false
           [[[1; 1; 1; 1]; [0; 1; 0; 1]; [0; 0; 0; 0]];
            [[1; 1; 1]; [0; 1; 0]; [1; 1; 1]; [0; 1; 0]]]%Z 1
           [[1; 1; 1]; [0; 1; 0]; [1; 1; 1]; [0; 1; 0]]%Z);
    [vm_compute; reflexivity | reflexivity].
Defined.

(** * Named parameters *)

Lemma pytree_forall_ind {A : Type} (Pr : tree_util.pytree A -> Prop) :
  (forall a : A, Pr (tree_util.leaf a)) ->
  (forall children : list (tree_util.pytree A),
     Forall Pr children -> Pr (tree_util.tuple children)) ->
  forall t : tree_util.pytree A, Pr t.
Proof.
  intros Hleaf Htuple. fix IH 1. intros [a|children].
  - apply Hleaf.
  - apply Htuple. induction children as [|c children IHc]; constructor.
    + apply IH.
    + exact IHc.
Qed.

(** What [flatten_up_to] took apart, [unflatten_from] puts together. *)
Lemma unflatten_from_flatten_up_to {P : Type} (d : tree_util.treedef) :
  forall (t : tree_util.pytree P) (l rest : list (tree_util.pytree P)),
    tree_util.flatten_up_to d t = Ok l ->
    tree_util.unflatten_from d (l ++ rest) = Ok (t, rest).
Proof.
  induction d as [u|ds IH] using pytree_forall_ind; intros t l rest Hflat.
  - cbn in Hflat. injection Hflat as <-. reflexivity.
  - destruct t as [a|ts]; [discriminate Hflat|].
    cbn [tree_util.flatten_up_to] in Hflat.
    cbn [tree_util.unflatten_from].
    set (each_f := fix each (ds : list tree_util.treedef)
                       (ts : list (tree_util.pytree P)) {struct ds} :=
           match ds, ts with
           | [], [] => Ok []
           | d' :: ds', t' :: ts' =>
               l1 <~ tree_util.flatten_up_to d' t' ;;
               l2 <~ each ds' ts' ;;
               Ok (l1 ++ l2)
           | _, _ => Raise ValueError
           end) in Hflat.
    set (each_u := fix each (ds : list tree_util.treedef)
                       (xs : list (tree_util.pytree P)) {struct ds} :=
           match ds with
           | [] => Ok ([], xs)
           | d' :: ds' =>
               '(t, xs1) <~ tree_util.unflatten_from d' xs ;;
               '(ts, xs2) <~ each ds' xs1 ;;
               Ok (t :: ts, xs2)
           end).
    assert (Heach : each_u ds (l ++ rest) = Ok (ts, rest)).
    { clear - IH Hflat. revert ts l Hflat.
      induction IH as [|d ds Hd _ IHds]; intros ts l Hflat.
      - destruct ts; [|discriminate Hflat]. injection Hflat as <-.
        reflexivity.
      - destruct ts as [|t ts]; [discriminate Hflat|].
        cbn in Hflat.
        destruct (tree_util.flatten_up_to d t) as [l1|] eqn:H1;
          [|discriminate Hflat].
        cbn in Hflat. destruct (each_f ds ts) as [l2|] eqn:H2;
          [|discriminate Hflat].
        injection Hflat as <-. cbn.
        rewrite <- app_assoc, (Hd t l1 (l2 ++ rest) H1). cbn.
        rewrite (IHds ts l2 H2). reflexivity. }
    rewrite Heach. reflexivity.
Qed.

(** What [unflatten_from] put together, [flatten_up_to] takes apart. *)
Lemma flatten_up_to_unflatten_from {P : Type} (d : tree_util.treedef) :
  forall (xs rest : list (tree_util.pytree P)) (t : tree_util.pytree P),
    tree_util.unflatten_from d xs = Ok (t, rest) ->
    exists l : list (tree_util.pytree P),
      xs = l ++ rest /\ tree_util.flatten_up_to d t = Ok l.
Proof.
  induction d as [u|ds IH] using pytree_forall_ind; intros xs rest t Hun.
  - destruct xs as [|x xs]; [discriminate Hun|].
    cbn in Hun. injection Hun as <- <-. exists [x]. split; reflexivity.
  - cbn [tree_util.unflatten_from] in Hun.
    set (each_u := fix each (ds : list tree_util.treedef)
                       (xs : list (tree_util.pytree P)) {struct ds} :=
           match ds with
           | [] => Ok ([], xs)
           | d' :: ds' =>
               '(t, xs1) <~ tree_util.unflatten_from d' xs ;;
               '(ts, xs2) <~ each ds' xs1 ;;
               Ok (t :: ts, xs2)
           end) in Hun.
    destruct (each_u ds xs) as [[ts rest']|] eqn:Heach; [|discriminate Hun].
    cbn in Hun. injection Hun as <- <-.
    cbn [tree_util.flatten_up_to].
    set (each_f := fix each (ds : list tree_util.treedef)
                       (ts : list (tree_util.pytree P)) {struct ds} :=
           match ds, ts with
           | [], [] => Ok []
           | d' :: ds', t' :: ts' =>
               l1 <~ tree_util.flatten_up_to d' t' ;;
               l2 <~ each ds' ts' ;;
               Ok (l1 ++ l2)
           | _, _ => Raise ValueError
           end).
    clear - IH Heach. revert xs ts Heach.
    induction IH as [|d ds Hd _ IHds]; intros xs ts Heach.
    + cbn in Heach. injection Heach as <- <-. exists []. split; reflexivity.
    + cbn in Heach.
      destruct (tree_util.unflatten_from d xs) as [[t xs1]|] eqn:H1;
        [|discriminate Heach].
      cbn in Heach. destruct (each_u ds xs1) as [[ts' xs2]|] eqn:H2;
        [|discriminate Heach].
      cbn in Heach. injection Heach as <- <-.
      destruct (Hd xs xs1 t H1) as (l1 & -> & Hl1).
      destruct (IHds xs1 ts' H2) as (l2 & -> & Hl2).
      exists (l1 ++ l2). split; [apply app_assoc|].
      cbn. rewrite Hl1. cbn. rewrite Hl2. reflexivity.
Qed.

Lemma getitem_setitem_same {A : Type} (l l' : list A) (i : nat) (v : A) :
  setitem l i v = Ok l' -> getitem l' i = Ok v.
Proof.
  revert l' i. induction l as [|a l IH]; intros l' i Hset;
    [discriminate Hset|].
  destruct i as [|i]; cbn in Hset.
  - injection Hset as <-. reflexivity.
  - destruct (setitem l i v) as [r|] eqn:Hr; [|discriminate Hset].
    cbn in Hset. injection Hset as <-.
    unfold getitem in *. cbn. apply (IH r i Hr).
Qed.

Lemma getitem_setitem_other {A : Type} (l l' : list A) (i j : nat) (v : A) :
  setitem l i v = Ok l' -> i <> j -> getitem l' j = getitem l j.
Proof.
  revert l' i j. induction l as [|a l IH]; intros l' i j Hset Hne;
    [discriminate Hset|].
  destruct i as [|i]; cbn in Hset.
  - injection Hset as <-. destruct j; [contradiction | reflexivity].
  - destruct (setitem l i v) as [r|] eqn:Hr; [|discriminate Hset].
    cbn in Hset. injection Hset as <-.
    destruct j as [|j]; [reflexivity|].
    unfold getitem in *. cbn. apply (IH r i j Hr). lia.
Qed.

Lemma setitem_getitem {A : Type} (l : list A) (i : nat) (v : A) :
  getitem l i = Ok v -> setitem l i v = Ok l.
Proof.
  revert i. induction l as [|a l IH]; intros i Hget.
  - destruct i; discriminate Hget.
  - destruct i as [|i]; unfold getitem in *; cbn in *.
    + injection Hget as <-. reflexivity.
    + rewrite IH; [reflexivity | exact Hget].
Qed.

Lemma setitem_in_range {A : Type} (l : list A) (i : nat) (v old : A) :
  getitem l i = Ok old -> exists l' : list A, setitem l i v = Ok l'.
Proof.
  revert i. induction l as [|a l IH]; intros i Hget.
  - destruct i; discriminate Hget.
  - destruct i as [|i]; unfold getitem in *; cbn in *.
    + eexists; reflexivity.
    + destruct (IH i Hget) as [l' Hl']. rewrite Hl'. eexists; reflexivity.
Qed.

Lemma index_getitem (l : list String.string) (x : String.string) (i : nat) :
  index l x = Ok i -> getitem l i = Ok x.
Proof.
  revert i. induction l as [|y l IH]; intros i Hidx; [discriminate Hidx|].
  cbn in Hidx. destruct (String.eqb_spec y x) as [->|Hne].
  - injection Hidx as <-. reflexivity.
  - destruct (index l x) as [i'|] eqn:Hi; [|discriminate Hidx].
    cbn in Hidx. injection Hidx as <-.
    unfold getitem in *. cbn. apply IH. reflexivity.
Qed.

Lemma index_missing (l : list String.string) (x : String.string) :
  ~ In x l -> index l x = Raise ValueError.
Proof.
  induction l as [|y l IH]; intros Hnot; [reflexivity|].
  cbn. destruct (String.eqb_spec y x) as [->|Hne].
  - exfalso. apply Hnot. left. reflexivity.
  - rewrite IH; [reflexivity|]. intros Hin. apply Hnot. right. exact Hin.
Qed.

Lemma treedef_eqb_refl (d : tree_util.treedef) :
  tree_util.treedef_eqb d d = true.
Proof.
  induction d as [u|ds IH] using pytree_forall_ind; [reflexivity|].
  cbn. induction IH as [|d ds Hd _ IHds]; [reflexivity|].
  rewrite Hd. exact IHds.
Qed.

Lemma flatten_up_to_raises {P : Type} (d : tree_util.treedef) :
  forall (t : tree_util.pytree P) (e : exception),
    tree_util.flatten_up_to d t = Raise e -> e = ValueError.
Proof.
  induction d as [u|ds IH] using pytree_forall_ind; intros t e Hflat.
  - discriminate Hflat.
  - destruct t as [a|ts]; [injection Hflat as <-; reflexivity|].
    cbn [tree_util.flatten_up_to] in Hflat.
    revert ts Hflat. induction IH as [|d ds Hd _ IHds]; intros ts Hflat.
    + destruct ts; [discriminate Hflat | injection Hflat as <-; reflexivity].
    + destruct ts as [|t ts]; [injection Hflat as <-; reflexivity|].
      destruct (tree_util.flatten_up_to d t) as [l1|e1] eqn:H1.
      * cbn [and_then] in Hflat.
        match type of Hflat with
        | and_then ?m _ = _ => destruct m as [l2|e2] eqn:H2
        end.
        -- discriminate Hflat.
        -- cbn in Hflat. injection Hflat as <-. apply (IHds ts H2).
      * cbn in Hflat. injection Hflat as <-. apply (Hd t e1 H1).
Qed.

(** What a successful [modify_param] did. *)
Lemma modify_param_inv {P : Type} (name : String.string)
    (names : tree_util.pytree String.string)
    (params new_param params' : tree_util.pytree P) :
  staxplusplus.modify_param name names params new_param = Ok params' ->
  exists (mapped mapped' : list (tree_util.pytree P)) (i : nat)
         (old_param : tree_util.pytree P),
    tree_util.flatten_up_to (tree_util.structure names) params = Ok mapped
    /\ index (tree_util.leaves names) name = Ok i
    /\ getitem mapped i = Ok old_param
    /\ tree_util.treedef_eqb (tree_util.structure old_param)
         (tree_util.structure new_param) = true
    /\ setitem mapped i new_param = Ok mapped'
    /\ tree_util.flatten_up_to (tree_util.structure names) params'
       = Ok mapped'.
Proof.
  unfold staxplusplus.modify_param, tree_util.tree_flatten. intros Hmod.
  destruct (tree_util.flatten_up_to _ params) as [mapped|] eqn:Hflat;
    [|discriminate Hmod].
  cbn [and_then] in Hmod.
  destruct (index _ name) as [i|] eqn:Hidx; [|discriminate Hmod].
  cbn [and_then] in Hmod.
  destruct (getitem mapped i) as [old_param|] eqn:Hold; [|discriminate Hmod].
  cbn [and_then] in Hmod.
  destruct (tree_util.treedef_eqb _ _) eqn:Heq; [|discriminate Hmod].
  destruct (setitem mapped i new_param) as [mapped'|] eqn:Hset;
    [|discriminate Hmod].
  cbn [and_then] in Hmod. unfold tree_util.unflatten in Hmod.
  destruct (tree_util.unflatten_from _ mapped') as [[t rest]|] eqn:Hun;
    [|discriminate Hmod].
  cbn [and_then] in Hmod. destruct rest; [|discriminate Hmod].
  injection Hmod as <-.
  destruct (flatten_up_to_unflatten_from _ _ _ _ Hun) as (l & Hl & Hflat').
  rewrite app_nil_r in Hl. subst l.
  exists mapped, mapped', i, old_param. repeat split; assumption.
Qed.

(** X13. A parameter that [modify_param] has set is the one that
    [get_param] returns: when [modify_param name names params p] returns
    the tree [params'], [get_param name names params'] returns [p]. *)
Theorem get_param_after_modify_param {P : Type} (name : String.string)
    (names : tree_util.pytree String.string)
    (params new_param params' : tree_util.pytree P) :
  staxplusplus.modify_param name names params new_param = Ok params' ->
  staxplusplus.get_param name names params' = Ok new_param.
Proof.
  intros Hmod.
  destruct (modify_param_inv name names params new_param params' Hmod)
    as (mapped & mapped' & i & old & _ & Hidx & _ & _ & Hset & Hflat').
  unfold staxplusplus.get_param, tree_util.tree_flatten.
  rewrite Hflat'. cbn [and_then]. rewrite Hidx. cbn [and_then].
  apply (getitem_setitem_same mapped mapped' i new_param Hset).
Qed.

Lemma get_param_after_modify_param_witness :
  staxplusplus.modify_param "bn" staxplusplus.example_names
    staxplusplus.example_params
    (tree_util.tuple [tree_util.leaf 7%Z; tree_util.leaf 8%Z])
  = Ok (tree_util.tuple
          [tree_util.tuple [tree_util.leaf 1%Z; tree_util.leaf 2%Z];
           tree_util.tuple
             [tree_util.tuple [tree_util.leaf 7%Z; tree_util.leaf 8%Z];
              tree_util.tuple [tree_util.leaf 5%Z; tree_util.leaf 6%Z]]])
  /\ staxplusplus.get_param "bn" staxplusplus.example_names
       (tree_util.tuple
          [tree_util.tuple [tree_util.leaf 1%Z; tree_util.leaf 2%Z];
           tree_util.tuple
             [tree_util.tuple [tree_util.leaf 7%Z; tree_util.leaf 8%Z];
              tree_util.tuple [tree_util.leaf 5%Z; tree_util.leaf 6%Z]]])
     = Ok (tree_util.tuple [tree_util.leaf 7%Z; tree_util.leaf 8%Z]).
Proof.
  split; [vm_compute; reflexivity|].
  apply (get_param_after_modify_param "bn" staxplusplus.example_names
           staxplusplus.example_params).
  vm_compute. reflexivity.
Defined.


(** X14. [modify_param] leaves the parameters of every other name as they
    were: for [other <> name], [get_param other] gives on the modified tree
    what it gave on the original one. *)
Theorem modify_param_keeps_other_names {P : Type} (name other : String.string)
    (names : tree_util.pytree String.string)
    (params new_param params' : tree_util.pytree P) :
  staxplusplus.modify_param name names params new_param = Ok params' ->
  other <> name ->
  staxplusplus.get_param other names params'
  = staxplusplus.get_param other names params.
Proof.
  intros Hmod Hne.
  destruct (modify_param_inv name names params new_param params' Hmod)
    as (mapped & mapped' & i & old & Hflat & Hidx & _ & _ & Hset & Hflat').
  unfold staxplusplus.get_param, tree_util.tree_flatten.
  rewrite Hflat, Hflat'. cbn [and_then].
  destruct (index (tree_util.leaves names) other) as [j|] eqn:Hj;
    [|reflexivity].
  cbn [and_then].
  apply (getitem_setitem_other mapped mapped' i j new_param Hset).
  intros ->. apply index_getitem in Hidx, Hj.
  rewrite Hidx in Hj. injection Hj as Hj. apply Hne. symmetry. exact Hj.
Qed.

Lemma modify_param_keeps_other_names_witness :
  staxplusplus.modify_param "bn" staxplusplus.example_names
    staxplusplus.example_params
    (tree_util.tuple [tree_util.leaf 7%Z; tree_util.leaf 8%Z])
  = Ok (tree_util.tuple
          [tree_util.tuple [tree_util.leaf 1%Z; tree_util.leaf 2%Z];
           tree_util.tuple
             [tree_util.tuple [tree_util.leaf 7%Z; tree_util.leaf 8%Z];
              tree_util.tuple [tree_util.leaf 5%Z; tree_util.leaf 6%Z]]])
  /\ "out"%string <> "bn"%string
  /\ staxplusplus.get_param "out" staxplusplus.example_names
       (tree_util.tuple
          [tree_util.tuple [tree_util.leaf 1%Z; tree_util.leaf 2%Z];
           tree_util.tuple
             [tree_util.tuple [tree_util.leaf 7%Z; tree_util.leaf 8%Z];
              tree_util.tuple [tree_util.leaf 5%Z; tree_util.leaf 6%Z]]])
     = staxplusplus.get_param "out" staxplusplus.example_names
         staxplusplus.example_params.
Proof.
  split; [vm_compute; reflexivity|]. split; [discriminate|].
  apply (modify_param_keeps_other_names "bn" "out"
           staxplusplus.example_names staxplusplus.example_params
           (tree_util.tuple [tree_util.leaf 7%Z; tree_util.leaf 8%Z]));
    [vm_compute; reflexivity | discriminate].
Defined.


(** X15. Writing back the parameter that [get_param] returned changes
    nothing: [modify_param name names params p] returns [params] itself
    when [p] is what [get_param name names params] returned. *)
Theorem modify_param_with_current_value {P : Type} (name : String.string)
    (names : tree_util.pytree String.string)
    (params p : tree_util.pytree P) :
  staxplusplus.get_param name names params = Ok p ->
  staxplusplus.modify_param name names params p = Ok params.
Proof.
  unfold staxplusplus.get_param, staxplusplus.modify_param,
    tree_util.tree_flatten.
  intros Hget.
  destruct (tree_util.flatten_up_to _ params) as [mapped|] eqn:Hflat;
    [|discriminate Hget].
  cbn [and_then] in *.
  destruct (index _ name) as [i|] eqn:Hidx; [|discriminate Hget].
  cbn [and_then] in *. rewrite Hget. cbn [and_then].
  rewrite treedef_eqb_refl, (setitem_getitem mapped i p Hget).
  cbn [and_then]. unfold tree_util.unflatten.
  pose proof (unflatten_from_flatten_up_to _ params mapped [] Hflat) as Hun.
  rewrite app_nil_r in Hun. rewrite Hun. reflexivity.
Qed.

Lemma modify_param_with_current_value_witness :
  staxplusplus.get_param "dense" staxplusplus.example_names
    staxplusplus.example_params
  = Ok (tree_util.tuple [tree_util.leaf 1%Z; tree_util.leaf 2%Z])
  /\ staxplusplus.modify_param "dense" staxplusplus.example_names
       staxplusplus.example_params
       (tree_util.tuple [tree_util.leaf 1%Z; tree_util.leaf 2%Z])
     = Ok staxplusplus.example_params.
Proof.
  split; [vm_compute; reflexivity|].
  apply (modify_param_with_current_value "dense" staxplusplus.example_names
           staxplusplus.example_params).
  vm_compute. reflexivity.
Defined.


(** X16. A name that is not among the names is a [ValueError], for
    [get_param] and for [modify_param] alike, whatever the parameters
    are. *)
Theorem unknown_name_is_value_error {P : Type} (name : String.string)
    (names : tree_util.pytree String.string)
    (params new_param : tree_util.pytree P) :
  ~ In name (tree_util.leaves names) ->
  staxplusplus.get_param name names params = Raise ValueError
  /\ staxplusplus.modify_param name names params new_param
     = Raise ValueError.
Proof.
  intros Hnot.
  unfold staxplusplus.get_param, staxplusplus.modify_param,
    tree_util.tree_flatten.
  destruct (tree_util.flatten_up_to _ params) as [mapped|e] eqn:Hflat;
    cbn [and_then].
  - rewrite (index_missing _ name Hnot). split; reflexivity.
  - rewrite (flatten_up_to_raises _ params e Hflat). split; reflexivity.
Qed.

Lemma unknown_name_is_value_error_witness :
  ~ In "conv"%string (tree_util.leaves staxplusplus.example_names)
  /\ staxplusplus.get_param "conv" staxplusplus.example_names
       staxplusplus.example_params = Raise ValueError
  /\ staxplusplus.modify_param "conv" staxplusplus.example_names
       staxplusplus.example_params (tree_util.leaf 0%Z) = Raise ValueError.
Proof.
  assert (Hnot : ~ In "conv"%string
                   (tree_util.leaves staxplusplus.example_names)).
  { cbn. intros [H|[H|[H|[]]]]; discriminate H. }
  split; [exact Hnot|].
  apply (unknown_name_is_value_error "conv" staxplusplus.example_names
           staxplusplus.example_params (tree_util.leaf 0%Z) Hnot).
Defined.


Lemma treedef_eqb_eq (d1 : tree_util.treedef) :
  forall d2 : tree_util.treedef,
    tree_util.treedef_eqb d1 d2 = true -> d1 = d2.
Proof.
  induction d1 as [u|ds IH] using pytree_forall_ind; intros d2 Heq.
  - destruct d2 as [u'|]; [|discriminate Heq]. destruct u, u'. reflexivity.
  - destruct d2 as [|ds2]; [discriminate Heq|].
    cbn in Heq. f_equal. revert ds2 Heq.
    induction IH as [|d ds Hd _ IHds]; intros ds2 Heq.
    + destruct ds2; [reflexivity | discriminate Heq].
    + destruct ds2 as [|d2 ds2]; [discriminate Heq|].
      apply andb_true_iff in Heq. destruct Heq as [H1 H2].
      f_equal; [apply Hd; exact H1 | apply IHds; exact H2].
Qed.

(** Whether [unflatten_from] succeeds depends on the number of entries
    only. *)
Lemma unflatten_from_same_length {P : Type} (d : tree_util.treedef) :
  forall (xs ys rest : list (tree_util.pytree P)) (t : tree_util.pytree P),
    length xs = length ys ->
    tree_util.unflatten_from d xs = Ok (t, rest) ->
    exists (t' : tree_util.pytree P) (rest' : list (tree_util.pytree P)),
      tree_util.unflatten_from d ys = Ok (t', rest')
      /\ length rest = length rest'.
Proof.
  induction d as [u|ds IH] using pytree_forall_ind;
    intros xs ys rest t Hlen Hun.
  - destruct xs as [|x xs]; [discriminate Hun|].
    destruct ys as [|y ys]; [discriminate Hlen|].
    cbn in *. injection Hun as <- <-. exists y, ys. split; [reflexivity|lia].
  - cbn [tree_util.unflatten_from] in *.
    set (each_u := fix each (ds : list tree_util.treedef)
                       (xs : list (tree_util.pytree P)) {struct ds} :=
           match ds with
           | [] => Ok ([], xs)
           | d' :: ds' =>
               '(t, xs1) <~ tree_util.unflatten_from d' xs ;;
               '(ts, xs2) <~ each ds' xs1 ;;
               Ok (t :: ts, xs2)
           end) in *.
    destruct (each_u ds xs) as [[ts rest0]|] eqn:Heach; [|discriminate Hun].
    cbn in Hun. injection Hun as <- <-.
    assert (Hys : exists ts' rest', each_u ds ys = Ok (ts', rest')
                                    /\ length rest0 = length rest').
    { clear - IH Heach Hlen. revert xs ys ts Hlen Heach.
      induction IH as [|d ds Hd _ IHds]; intros xs ys ts Hlen Heach.
      - cbn in *. injection Heach as <- <-. exists [], ys. split; auto.
      - cbn in Heach.
        destruct (tree_util.unflatten_from d xs) as [[t xs1]|] eqn:H1;
          [|discriminate Heach].
        cbn in Heach. destruct (each_u ds xs1) as [[ts' xs2]|] eqn:H2;
          [|discriminate Heach].
        cbn in Heach. injection Heach as <- <-.
        destruct (Hd xs ys xs1 t Hlen H1) as (t' & ys1 & Hy1 & Hlen1).
        destruct (IHds xs1 ys1 ts' Hlen1 H2) as (ts2 & ys2 & Hy2 & Hlen2).
        exists (t' :: ts2), ys2. cbn. rewrite Hy1. cbn. rewrite Hy2.
        split; [reflexivity | exact Hlen2]. }
    destruct Hys as (ts' & rest' & Hy & Hl). rewrite Hy. cbn.
    eexists; eexists. split; [reflexivity | exact Hl].
Qed.

Lemma length_setitem {A : Type} (l l' : list A) (i : nat) (v : A) :
  setitem l i v = Ok l' -> length l' = length l.
Proof.
  revert l' i. induction l as [|a l IH]; intros l' i Hset;
    [discriminate Hset|].
  destruct i as [|i]; cbn in Hset.
  - injection Hset as <-. reflexivity.
  - destruct (setitem l i v) as [r|] eqn:Hr; [|discriminate Hset].
    cbn in Hset. injection Hset as <-. cbn. rewrite (IH r i Hr). reflexivity.
Qed.

(** X17. The guard of [modify_param]: for a name that [get_param] finds,
    with the parameter [old], a new parameter of the tree structure of
    [old] is accepted, and one of another structure is an
    [AssertionError]. *)
Theorem modify_param_structure_guard {P : Type} (name : String.string)
    (names : tree_util.pytree String.string)
    (params old new_param : tree_util.pytree P) :
  staxplusplus.get_param name names params = Ok old ->
  (tree_util.structure old = tree_util.structure new_param ->
   exists params' : tree_util.pytree P,
     staxplusplus.modify_param name names params new_param = Ok params')
  /\ (tree_util.structure old <> tree_util.structure new_param ->
      staxplusplus.modify_param name names params new_param
      = Raise AssertionError).
Proof.
  unfold staxplusplus.get_param, staxplusplus.modify_param,
    tree_util.tree_flatten.
  intros Hget.
  destruct (tree_util.flatten_up_to _ params) as [mapped|] eqn:Hflat;
    [|discriminate Hget].
  cbn [and_then] in *.
  destruct (index _ name) as [i|] eqn:Hidx; [|discriminate Hget].
  cbn [and_then] in *. rewrite Hget. cbn [and_then]. split.
  - intros Hsame. rewrite Hsame, treedef_eqb_refl.
    destruct (setitem_in_range mapped i new_param old Hget)
      as [mapped' Hset].
    rewrite Hset. cbn [and_then]. unfold tree_util.unflatten.
    pose proof (unflatten_from_flatten_up_to _ params mapped [] Hflat) as Hun.
    rewrite app_nil_r in Hun.
    destruct (unflatten_from_same_length _ mapped mapped' [] params
                (eq_sym (length_setitem _ _ _ _ Hset)) Hun)
      as (t' & rest' & Hun' & Hrest).
    rewrite Hun'. cbn [and_then].
    destruct rest'; [|discriminate Hrest]. eexists; reflexivity.
  - intros Hdiff.
    destruct (tree_util.treedef_eqb _ _) eqn:Heq; [|reflexivity].
    exfalso. apply Hdiff. apply treedef_eqb_eq. exact Heq.
Qed.

Lemma modify_param_structure_guard_witness :
  staxplusplus.get_param "bn" staxplusplus.example_names
    staxplusplus.example_params
  = Ok (tree_util.tuple [tree_util.leaf 3%Z; tree_util.leaf 4%Z])
  /\ tree_util.structure
       (tree_util.tuple [tree_util.leaf 3%Z; tree_util.leaf 4%Z])
     <> tree_util.structure (tree_util.leaf 9%Z)
  /\ staxplusplus.modify_param "bn" staxplusplus.example_names
       staxplusplus.example_params (tree_util.leaf 9%Z)
     = Raise AssertionError.
Proof.
  split; [vm_compute; reflexivity|]. split; [discriminate|].
  apply (modify_param_structure_guard "bn" staxplusplus.example_names
           staxplusplus.example_params
           (tree_util.tuple [tree_util.leaf 3%Z; tree_util.leaf 4%Z])
           (tree_util.leaf 9%Z)).
  - vm_compute. reflexivity.
  - discriminate.
Defined.

(** * Composition of flows *)

Lemma dict_mem_In {V : Type} (d : dict.t V) (k : String.string) :
  dict.mem d k = true <-> In k (map fst d).
Proof.
  induction d as [|[k' v'] d IH]; cbn; [split; [discriminate | tauto]|].
  rewrite orb_true_iff, IH.
  destruct (String.eqb_spec k' k); split; intros [Hl|Hr]; auto;
    try discriminate; contradiction.
Qed.

Lemma dict_get_In {V : Type} (d : dict.t V) (k : String.string) :
  In k (map fst d) -> exists v : V, dict.get d k = Ok v.
Proof.
  induction d as [|[k' v'] d IH]; cbn; [tauto|].
  intros [Hk|Hin].
  - subst k'. rewrite String.eqb_refl. eexists; reflexivity.
  - destruct (String.eqb k' k); [eexists; reflexivity | exact (IH Hin)].
Qed.

Lemma dict_get_Ok_In {V : Type} (d : dict.t V) (k : String.string) (v : V) :
  dict.get d k = Ok v -> In k (map fst d).
Proof.
  induction d as [|[k' v'] d IH]; cbn; [discriminate|].
  destruct (String.eqb_spec k' k); [auto | intros Hget; right; exact (IH Hget)].
Qed.

Lemma dict_keys_set {V : Type} (d : dict.t V) (k : String.string) (v : V) :
  map fst (dict.set d k v)
  = if dict.mem d k then map fst d else map fst d ++ [k].
Proof.
  induction d as [|[k' v'] d IH]; cbn; [reflexivity|].
  destruct (String.eqb_spec k' k) as [->|Hne]; cbn; [reflexivity|].
  rewrite IH. destruct (dict.mem d k); reflexivity.
Qed.

Lemma dict_keys_set_present {V : Type} (d : dict.t V) (k : String.string)
    (v : V) :
  In k (map fst d) -> map fst (dict.set d k v) = map fst d.
Proof.
  intros Hin. rewrite dict_keys_set.
  apply dict_mem_In in Hin. rewrite Hin. reflexivity.
Qed.

Lemma dict_mem_keys {V W : Type} (d : dict.t V) (e : dict.t W)
    (k : String.string) :
  map fst d = map fst e -> dict.mem d k = dict.mem e k.
Proof.
  revert e. induction d as [|[k' v'] d IH]; intros [|[k'' w] e] Hkeys;
    try discriminate Hkeys; [reflexivity|].
  cbn in *. injection Hkeys as -> Hkeys. rewrite (IH e Hkeys). reflexivity.
Qed.

(** The keys after [d.update(items)] depend on the keys only. *)
Lemma dict_keys_update {V W : Type} (items : list (String.string * V))
    (items' : list (String.string * W)) :
  map fst items = map fst items' ->
  forall (d : dict.t V) (e : dict.t W),
    map fst d = map fst e ->
    map fst (dict.update d items) = map fst (dict.update e items').
Proof.
  revert items'. induction items as [|[k v] items IH];
    intros [|[k' w] items'] Hitems d e Hkeys; try discriminate Hitems.
  - exact Hkeys.
  - cbn in Hitems. injection Hitems as -> Hitems.
    unfold dict.update in *. cbn [fold_left fst snd].
    apply (IH items' Hitems).
    rewrite !dict_keys_set, (dict_mem_keys d e k' Hkeys), Hkeys.
    reflexivity.
Qed.

Lemma dict_keys_update_In {V : Type} (items d : dict.t V)
    (k : String.string) :
  In k (map fst (dict.update d items)) ->
  In k (map fst d) \/ In k (map fst items).
Proof.
  revert d. induction items as [|[k' v] items IH]; intros d Hin;
    [left; exact Hin|].
  unfold dict.update in *. cbn [fold_left fst snd] in Hin.
  destruct (IH _ Hin) as [Hd|Hitems].
  - rewrite dict_keys_set in Hd. destruct (dict.mem d k'); [left; exact Hd|].
    apply in_app_or in Hd. destruct Hd as [Hd|[<-|[]]];
      [left; exact Hd | right; left; reflexivity].
  - right. right. exact Hitems.
Qed.

(** [d.update(other)] gives a key of [other] the value it has in [other]. *)
Lemma dict_get_update {V : Type} (other d : dict.t V) (k : String.string)
    (v : V) :
  NoDup (map fst other) ->
  dict.get other k = Ok v ->
  dict.get (dict.update d other) k = Ok v.
Proof.
  revert d. induction other as [|[k' v'] other IH]; intros d Hnd Hget;
    [discriminate Hget|].
  unfold dict.update in *. cbn [fold_left fst snd].
  cbn in Hget, Hnd. apply NoDup_cons_iff in Hnd. destruct Hnd as [Hfresh Hnd].
  destruct (String.eqb_spec k' k) as [->|Hne].
  - injection Hget as <-.
    assert (Hkeep : forall (o e : dict.t V),
              ~ In k (map fst o) ->
              dict.get e k = Ok v' ->
              dict.get (fold_left (fun acc kv => dict.set acc (fst kv) (snd kv))
                          o e) k = Ok v').
    { clear. induction o as [|[k1 v1] o IHo]; intros e Hfresh He;
        [exact He|].
      cbn [fold_left fst snd]. apply IHo.
      - intros Hin. apply Hfresh. right. exact Hin.
      - rewrite dict_get_set_other; [exact He|].
        intros ->. apply Hfresh. left. reflexivity. }
    apply Hkeep; [exact Hfresh | apply dict_get_set_same].
  - apply IH; assumption.
Qed.

Section ComposeFacts.

Context {V K : Type} `{Arrays V K}.

(** The accumulation over the names never fails and keeps the keys. *)
Lemma accumulate_names_keys (names : list String.string)
    (outputs : dict.t V) :
  forall (acc_out : dict.t V) (acc_found : dict.t bool),
    incl names (map fst acc_out) ->
    incl names (map fst acc_found) ->
    exists (acc_out' : dict.t V) (acc_found' : dict.t bool),
      compose.accumulate_names names outputs acc_out acc_found
      = Ok (acc_out', acc_found')
      /\ map fst acc_out' = map fst acc_out
      /\ map fst acc_found' = map fst acc_found.
Proof.
  induction names as [|name names IH]; intros acc_out acc_found Hout Hfound.
  - exists acc_out, acc_found. repeat split.
  - cbn [compose.accumulate_names].
    assert (Hn_out : In name (map fst acc_out)) by (apply Hout; left; reflexivity).
    assert (Hn_found : In name (map fst acc_found))
      by (apply Hfound; left; reflexivity).
    assert (Hrest_out : incl names (map fst acc_out))
      by (intros n Hn; apply Hout; right; exact Hn).
    assert (Hrest_found : incl names (map fst acc_found))
      by (intros n Hn; apply Hfound; right; exact Hn).
    destruct (dict.mem outputs name) eqn:Hmem.
    + destruct (dict_get_In acc_out name Hn_out) as [a Ha].
      apply dict_mem_In in Hmem.
      destruct (dict_get_In outputs name Hmem) as [o Ho].
      rewrite Ha, Ho. cbn [and_then].
      destruct (IH (dict.set acc_out name (array_add a o))
                  (dict.set acc_found name true))
        as (ao & af & Hrun & Hko & Hkf).
      * rewrite dict_keys_set_present by exact Hn_out. exact Hrest_out.
      * rewrite dict_keys_set_present by exact Hn_found. exact Hrest_found.
      * exists ao, af. rewrite Hrun, Hko, Hkf.
        rewrite !dict_keys_set_present by assumption. repeat split.
    + apply IH; assumption.
Qed.

(** Swapping the accumulated outputs in never fails and leaves the other
    keys alone. *)
Lemma swap_in_other (items : list (String.string * V))
    (acc_found : dict.t bool) (k : String.string) :
  incl (map fst items) (map fst acc_found) ->
  ~ In k (map fst items) ->
  forall final_outputs : dict.t V,
    exists final' : dict.t V,
      compose.swap_in items acc_found final_outputs = Ok final'
      /\ dict.get final' k = dict.get final_outputs k.
Proof.
  induction items as [|[name val] items IH]; intros Hincl Hk final_outputs.
  - exists final_outputs. split; reflexivity.
  - cbn [compose.swap_in].
    assert (Hname : In name (map fst acc_found))
      by (apply Hincl; left; reflexivity).
    destruct (dict_get_In acc_found name Hname) as [found Hfound].
    rewrite Hfound. cbn [and_then].
    assert (Hrest : incl (map fst items) (map fst acc_found))
      by (intros n Hn; apply Hincl; right; exact Hn).
    assert (Hk' : ~ In k (map fst items))
      by (intros Hin; apply Hk; right; exact Hin).
    destruct found.
    + destruct (IH Hrest Hk' (dict.set final_outputs name val))
        as (final' & Hrun & Hget).
      exists final'. split; [exact Hrun|].
      rewrite Hget. apply dict_get_set_other.
      intros ->. apply Hk. left. reflexivity.
    + apply IH; assumption.
Qed.

(** The loop over layers that map ["x"] by the functions [hs], one after
    the other. *)
Lemma sequential_loop_maps_x (sample : bool) (names : list String.string) :
  forall (pairs : list (compose.layer * option K)) (hs : list (V -> V))
         (layer_inputs final_outputs acc_out : dict.t V)
         (acc_found : dict.t bool) (x : V),
    Forall2 (fun p h => compose.maps_x (fst p) sample h) pairs hs ->
    dict.get layer_inputs "x" = Ok x ->
    dict.get final_outputs "x" = Ok x ->
    map fst acc_out = names ->
    map fst acc_found = names ->
    exists (layer_inputs' final' acc_out' : dict.t V)
           (acc_found' : dict.t bool),
      compose.sequential_loop pairs sample layer_inputs final_outputs
        acc_out acc_found
      = Ok (layer_inputs', final', acc_out', acc_found')
      /\ dict.get final' "x" = Ok (fold_left (fun y h => h y) hs x)
      /\ map fst acc_out' = names
      /\ map fst acc_found' = names.
Proof.
  intros pairs hs layer_inputs final_outputs acc_out acc_found x Hmaps.
  revert layer_inputs final_outputs acc_out acc_found x.
  induction Hmaps as [|[l rng] h pairs hs Hl _ IH];
    intros layer_inputs final_outputs acc_out acc_found x Hli Hfo Hko Hkf.
  - exists layer_inputs, final_outputs, acc_out, acc_found.
    repeat split; assumption.
  - cbn [compose.sequential_loop fst].
    destruct (Hl layer_inputs rng x Hli) as (outputs & Hcall & Hwf & Hx).
    cbn [fst] in Hcall. rewrite Hcall. cbn [and_then].
    rewrite Hx. cbn [and_then].
    destruct (accumulate_names_keys (map fst acc_out) outputs acc_out
                acc_found)
      as (ao & af & Hacc & Hao & Haf).
    { apply incl_refl. }
    { rewrite Hko, Hkf. apply incl_refl. }
    rewrite Hacc. cbn [and_then].
    apply IH.
    + apply dict_get_set_same.
    + apply dict_get_update; assumption.
    + rewrite Hao. exact Hko.
    + rewrite Haf. exact Hkf.
Qed.

Lemma length_split_rngs (rng : option K) (n : nat) :
  (forall (key : K) (m : nat), length (random_split key m) = m) ->
  length (compose.split_rngs rng n) = n.
Proof.
  intros Hsplit. destruct rng as [key|]; cbn.
  - rewrite length_map. apply Hsplit.
  - apply repeat_length.
Qed.

(** A call of [sequential] on layers that map ["x"] by [hs], in the order
    in which the call runs them. *)
Lemma sequential_call_maps_x (layers : list compose.layer)
    (hs : list (V -> V)) (inputs : dict.t V) (rng : option K)
    (sample : bool) (accumulate : list String.string) (x : V) :
  (forall (key : K) (m : nat), length (random_split key m) = m) ->
  Forall2 (fun l h => compose.maps_x l sample h)
    (if sample then rev layers else layers) hs ->
  ~ In "x"%string accumulate ->
  dict.get inputs "x" = Ok x ->
  exists outputs : dict.t V,
    compose.sequential_call layers inputs rng sample accumulate = Ok outputs
    /\ dict.get outputs "x" = Ok (fold_left (fun y h => h y) hs x).
Proof.
  intros Hsplit Hmaps Hacc Hx. unfold compose.sequential_call.
  set (acc_out := dict.of_items (map (fun name => (name, array_zero))
                                   accumulate)).
  set (acc_found := dict.of_items (map (fun name => (name, false))
                                     accumulate)).
  assert (Hkeys : map fst acc_found = map fst acc_out).
  { unfold acc_found, acc_out, dict.of_items.
    apply dict_keys_update; [|reflexivity].
    rewrite !map_map. reflexivity. }
  assert (Hpairs : Forall2 (fun p h => compose.maps_x (fst p) sample h)
                     (combine (if sample then rev layers else layers)
                        (compose.split_rngs rng (length layers))) hs).
  { assert (Hlen : length (compose.split_rngs rng (length layers))
                   = length (if sample then rev layers else layers)).
    { rewrite length_split_rngs by exact Hsplit.
      destruct sample; [rewrite length_rev|]; reflexivity. }
    revert Hlen. generalize (compose.split_rngs rng (length layers)).
    induction Hmaps as [|l h ls hs' Hl _ IH]; intros rngs Hlen.
    - destruct rngs; constructor.
    - destruct rngs as [|r rngs]; [discriminate Hlen|].
      cbn. constructor; [exact Hl|]. apply IH. cbn in Hlen. lia. }
  destruct (sequential_loop_maps_x sample (map fst acc_out) _ hs inputs
              inputs acc_out acc_found x Hpairs Hx Hx eq_refl Hkeys)
    as (li & fo & ao & af & Hloop & Hfo & Hao & Haf).
  rewrite Hloop. cbn [and_then].
  assert (Hnot : ~ In "x"%string (map fst ao)).
  { rewrite Hao. unfold acc_out, dict.of_items. intros Hin.
    apply dict_keys_update_In in Hin. destruct Hin as [[]|Hin].
    rewrite map_map in Hin. cbn in Hin. rewrite map_id in Hin.
    exact (Hacc Hin). }
  destruct (swap_in_other ao af "x"%string) with (final_outputs := fo)
    as (final' & Hswap & Hget).
  - rewrite Hao, Haf. apply incl_refl.
  - exact Hnot.
  - exists final'. split; [exact Hswap|]. rewrite Hget. exact Hfo.
Qed.

Lemma dict_wf_set {W : Type} (d : dict.t W) (k : String.string) (v : W) :
  dict.wf d -> dict.wf (dict.set d k v).
Proof.
  unfold dict.wf. intros Hwf. rewrite dict_keys_set.
  destruct (dict.mem d k) eqn:Hmem; [exact Hwf|].
  apply NoDup_app; [exact Hwf | repeat constructor; intros [] |].
  intros k' Hin [<-|[]]. apply dict_mem_In in Hin. congruence.
Qed.

Lemma dict_wf_update {W : Type} (items d : dict.t W) :
  dict.wf d -> dict.wf (dict.update d items).
Proof.
  revert d. induction items as [|[k v] items IH]; intros d Hwf; [exact Hwf|].
  unfold dict.update in *. cbn [fold_left fst snd].
  apply IH. apply dict_wf_set. exact Hwf.
Qed.

Lemma dict_wf_of_items {W : Type} (items : list (String.string * W)) :
  dict.wf (dict.of_items items).
Proof.
  apply dict_wf_update. constructor.
Qed.

Lemma dict_keys_set_In {W : Type} (d : dict.t W) (k n : String.string)
    (v : W) :
  In k (map fst (dict.set d n v)) <-> k = n \/ In k (map fst d).
Proof.
  rewrite dict_keys_set. destruct (dict.mem d n) eqn:Hmem.
  - apply dict_mem_In in Hmem. split; [auto|]. intros [->|Hin]; assumption.
  - rewrite in_app_iff. cbn. split.
    + intros [Hin|[<-|[]]]; auto.
    + intros [->|Hin]; auto.
Qed.

(** Every value of the dictionary made of the items [(name, c)] is [c]. *)
Lemma dict_get_of_constant_items {W : Type} (names : list String.string)
    (c : W) (k : String.string) :
  In k names ->
  dict.get (dict.of_items (map (fun name => (name, c)) names)) k = Ok c.
Proof.
  intros Hin. unfold dict.of_items, dict.update.
  assert (Hgen : forall d : dict.t W,
            (In k (map fst d) -> dict.get d k = Ok c) ->
            In k names \/ In k (map fst d) ->
            dict.get (fold_left (fun acc kv => dict.set acc (fst kv) (snd kv))
                        (map (fun name => (name, c)) names) d) k = Ok c).
  { clear Hin. induction names as [|n names IH]; intros d Hd Hk.
    - cbn. destruct Hk as [[]|Hk]. exact (Hd Hk).
    - cbn [map fold_left fst snd]. apply IH.
      + intros Hin. destruct (String.eqb_spec n k) as [->|Hne].
        * apply dict_get_set_same.
        * rewrite dict_get_set_other by exact Hne. apply Hd.
          apply dict_keys_set_In in Hin. destruct Hin as [->|Hin];
            [contradiction | exact Hin].
      + destruct Hk as [[->|Hk]|Hk].
        * right. apply dict_keys_set_In. left. reflexivity.
        * left. exact Hk.
        * right. apply dict_keys_set_In. right. exact Hk. }
  apply Hgen; [intros [] | left; exact Hin].
Qed.

(** The accumulation leaves the names it does not visit alone. *)
Lemma accumulate_names_other (names : list String.string)
    (outputs : dict.t V) (k : String.string) :
  ~ In k names ->
  forall (acc_out acc_out' : dict.t V) (acc_found acc_found' : dict.t bool),
    compose.accumulate_names names outputs acc_out acc_found
    = Ok (acc_out', acc_found') ->
    dict.get acc_out' k = dict.get acc_out k
    /\ dict.get acc_found' k = dict.get acc_found k.
Proof.
  induction names as [|n names IH];
    intros Hk acc_out acc_out' acc_found acc_found' Hrun.
  - cbn in Hrun. injection Hrun as <- <-. split; reflexivity.
  - cbn [compose.accumulate_names] in Hrun.
    assert (Hne : n <> k) by (intros ->; apply Hk; left; reflexivity).
    assert (Hk' : ~ In k names) by (intros Hin; apply Hk; right; exact Hin).
    destruct (dict.mem outputs n).
    + destruct (dict.get acc_out n) as [a|]; [|discriminate Hrun].
      destruct (dict.get outputs n) as [o|]; [|discriminate Hrun].
      cbn [and_then] in Hrun.
      destruct (IH Hk' _ _ _ _ Hrun) as [Hout Hfound].
      rewrite Hout, Hfound, !dict_get_set_other by exact Hne.
      split; reflexivity.
    + exact (IH Hk' _ _ _ _ Hrun).
Qed.

(** The accumulation adds the output of a visited name once. *)
Lemma accumulate_names_value (names : list String.string)
    (outputs : dict.t V) (name : String.string) (o : V) :
  NoDup names ->
  In name names ->
  dict.get outputs name = Ok o ->
  forall (acc_out acc_out' : dict.t V) (acc_found acc_found' : dict.t bool)
         (a : V),
    dict.get acc_out name = Ok a ->
    compose.accumulate_names names outputs acc_out acc_found
    = Ok (acc_out', acc_found') ->
    dict.get acc_out' name = Ok (array_add a o)
    /\ dict.get acc_found' name = Ok true.
Proof.
  intros Hnd Hin Ho. induction names as [|n names IH];
    intros acc_out acc_out' acc_found acc_found' a Ha Hrun; [destruct Hin|].
  apply NoDup_cons_iff in Hnd. destruct Hnd as [Hfresh Hnd].
  cbn [compose.accumulate_names] in Hrun.
  destruct (String.eqb_spec n name) as [->|Hne].
  - assert (Hmem : dict.mem outputs name = true)
      by (apply dict_mem_In; exact (dict_get_Ok_In _ _ _ Ho)).
    rewrite Hmem, Ha, Ho in Hrun. cbn [and_then] in Hrun.
    destruct (accumulate_names_other names outputs name Hfresh _ _ _ _ Hrun)
      as [Hout Hfound].
    rewrite Hout, Hfound, !dict_get_set_same. split; reflexivity.
  - destruct Hin as [Hin|Hin]; [contradiction|].
    destruct (dict.mem outputs n).
    + destruct (dict.get acc_out n) as [a'|]; [|discriminate Hrun].
      destruct (dict.get outputs n) as [o'|]; [|discriminate Hrun].
      cbn [and_then] in Hrun.
      refine (IH Hnd Hin _ _ _ _ a _ Hrun).
      rewrite dict_get_set_other by exact Hne. exact Ha.
    + exact (IH Hnd Hin _ _ _ _ a Ha Hrun).
Qed.

(** A name that was found is swapped in with its accumulated value. *)
Lemma swap_in_found (items : list (String.string * V))
    (acc_found : dict.t bool) (name : String.string) (val : V) :
  NoDup (map fst items) ->
  incl (map fst items) (map fst acc_found) ->
  dict.get items name = Ok val ->
  dict.get acc_found name = Ok true ->
  forall final_outputs : dict.t V,
    exists final' : dict.t V,
      compose.swap_in items acc_found final_outputs = Ok final'
      /\ dict.get final' name = Ok val.
Proof.
  induction items as [|[n v] items IH];
    intros Hnd Hincl Hval Hfound final_outputs; [discriminate Hval|].
  cbn in Hnd. apply NoDup_cons_iff in Hnd. destruct Hnd as [Hfresh Hnd].
  assert (Hrest : incl (map fst items) (map fst acc_found))
    by (intros k Hk; apply Hincl; right; exact Hk).
  cbn [compose.swap_in]. cbn in Hval.
  destruct (String.eqb_spec n name) as [->|Hne].
  - injection Hval as ->. rewrite Hfound. cbn [and_then].
    destruct (swap_in_other items acc_found name Hrest Hfresh
                (dict.set final_outputs name val))
      as (final' & Hrun & Hget).
    exists final'. split; [exact Hrun|].
    rewrite Hget. apply dict_get_set_same.
  - assert (Hn : In n (map fst acc_found))
      by (apply Hincl; left; reflexivity).
    destruct (dict_get_In acc_found n Hn) as [found Hf].
    rewrite Hf. cbn [and_then].
    destruct found; apply IH; assumption.
Qed.

(** The loop over layers that map ["x"] and return a term under [name]. *)
Lemma sequential_loop_accumulates (sample : bool)
    (names : list String.string) (name : String.string) :
  NoDup names ->
  In name names ->
  forall (pairs : list (compose.layer * option K))
         (steps : list ((V -> V) * (V -> V)))
         (layer_inputs final_outputs acc_out : dict.t V)
         (acc_found : dict.t bool) (x total : V),
    Forall2 (fun p st =>
               compose.maps_x_with (fst p) sample name (fst st) (snd st))
      pairs steps ->
    dict.get layer_inputs "x" = Ok x ->
    dict.get final_outputs "x" = Ok x ->
    map fst acc_out = names ->
    map fst acc_found = names ->
    dict.get acc_out name = Ok total ->
    exists (layer_inputs' final' acc_out' : dict.t V)
           (acc_found' : dict.t bool),
      compose.sequential_loop pairs sample layer_inputs final_outputs
        acc_out acc_found
      = Ok (layer_inputs', final', acc_out', acc_found')
      /\ dict.get final' "x" = Ok (fst (compose.chain steps x total))
      /\ dict.get acc_out' name = Ok (snd (compose.chain steps x total))
      /\ (steps <> [] \/ dict.get acc_found name = Ok true ->
          dict.get acc_found' name = Ok true)
      /\ map fst acc_out' = names
      /\ map fst acc_found' = names.
Proof.
  intros Hnd Hin pairs steps layer_inputs final_outputs acc_out acc_found
    x total Hmaps.
  revert layer_inputs final_outputs acc_out acc_found x total.
  induction Hmaps as [|[l rng] [h term] pairs steps Hl _ IH];
    intros layer_inputs final_outputs acc_out acc_found x total
      Hli Hfo Hko Hkf Htotal.
  - exists layer_inputs, final_outputs, acc_out, acc_found.
    repeat split; try assumption.
    intros [Hne|Hfound]; [contradiction | exact Hfound].
  - cbn [compose.sequential_loop fst snd compose.chain] in *.
    destruct (Hl layer_inputs rng x Hli) as (outputs & Hcall & Hwf & Hx & Ht).
    rewrite Hcall. cbn [and_then]. rewrite Hx. cbn [and_then].
    destruct (accumulate_names_keys (map fst acc_out) outputs acc_out
                acc_found)
      as (ao & af & Hacc & Hao & Haf).
    { apply incl_refl. }
    { rewrite Hko, Hkf. apply incl_refl. }
    rewrite Hacc. cbn [and_then].
    destruct (accumulate_names_value (map fst acc_out) outputs name (term x))
      with (acc_out := acc_out) (acc_out' := ao) (acc_found := acc_found)
           (acc_found' := af) (a := total)
      as [Hval Hfound]; try assumption.
    { rewrite Hko. exact Hnd. }
    { rewrite Hko. exact Hin. }
    destruct (IH (dict.set layer_inputs "x" (h x))
                (dict.update final_outputs outputs) ao af (h x)
                (array_add total (term x)))
      as (li' & fo' & ao' & af' & Hrun & Hfx & Hav & Haf' & Hko' & Hkf').
    + apply dict_get_set_same.
    + apply dict_get_update; assumption.
    + rewrite Hao. exact Hko.
    + rewrite Haf. exact Hkf.
    + exact Hval.
    + exists li', fo', ao', af'. repeat split; try assumption.
      intros _. apply Haf'. right. exact Hfound.
Qed.

End ComposeFacts.

Lemma Forall2_reversed {A B : Type} (R : A -> B -> Prop) (l : list A)
    (l' : list B) :
  Forall2 R l l' -> Forall2 R (rev l) (rev l').
Proof.
  induction 1 as [|a b l l' Hab _ IH]; [constructor|].
  cbn. apply Forall2_app; [exact IH | repeat constructor; exact Hab].
Qed.

Section ComposeTheorems.

Context {V K : Type} `{Arrays V K}.

(** The functions of a list of bijective layers. *)
Lemma bijective_layers_functions (layers : list (@compose.layer V K)) :
  Forall compose.bijective_on_x layers ->
  exists pairs : list ((V -> V) * (V -> V)),
    Forall2 (fun l h => compose.maps_x l false h) layers (map fst pairs)
    /\ Forall2 (fun l h => compose.maps_x l true h) layers (map snd pairs)
    /\ Forall (fun p => forall x : V, snd p (fst p x) = x) pairs.
Proof.
  induction 1 as [|l layers (g & g_inv & Hg & Hinv & Hid) _ IH].
  - exists []. repeat split; constructor.
  - destruct IH as (pairs & Hfwd & Hbwd & Hids).
    exists ((g, g_inv) :: pairs). cbn.
    repeat split; constructor; assumption.
Qed.

Lemma fold_inverse_functions (pairs : list ((V -> V) * (V -> V))) :
  Forall (fun p => forall x : V, snd p (fst p x) = x) pairs ->
  forall x : V,
    fold_left (fun y h => h y) (rev (map snd pairs))
      (fold_left (fun y h => h y) (map fst pairs) x) = x.
Proof.
  induction 1 as [|[g g_inv] pairs Hid _ IH]; intros x; [reflexivity|].
  cbn [map rev fst snd fold_left] in *.
  rewrite fold_left_app. cbn. rewrite IH. apply Hid.
Qed.

(** X18. A sequential flow of bijective layers is bijective on ["x"]: run
    forward and then, on its own outputs, with [sample] set, the layers
    being taken in reverse order, it gives back the ["x"] it started from.
    The keys [rng] may differ between the two runs; ["x"] must not be among
    the accumulated names. *)
Theorem sequential_round_trip (layers : list (@compose.layer V K))
    (inputs : dict.t V) (rng rng' : option K)
    (accumulate : list String.string) (x : V) :
  (forall (key : K) (m : nat), length (random_split key m) = m) ->
  Forall compose.bijective_on_x layers ->
  ~ In "x"%string accumulate ->
  dict.get inputs "x" = Ok x ->
  exists outputs back : dict.t V,
    compose.sequential_call layers inputs rng false accumulate = Ok outputs
    /\ compose.sequential_call layers outputs rng' true accumulate = Ok back
    /\ dict.get back "x" = Ok x.
Proof.
  intros Hsplit Hbij Hacc Hx.
  destruct (bijective_layers_functions layers Hbij)
    as (pairs & Hfwd & Hbwd & Hids).
  destruct (sequential_call_maps_x layers (map fst pairs) inputs rng false
              accumulate x Hsplit Hfwd Hacc Hx) as (outputs & Hout & Hz).
  destruct (sequential_call_maps_x layers (rev (map snd pairs)) outputs rng'
              true accumulate _ Hsplit (Forall2_reversed _ _ _ Hbwd) Hacc Hz)
    as (back & Hback & Hbx).
  exists outputs, back. split; [exact Hout|]. split; [exact Hback|].
  rewrite Hbx, (fold_inverse_functions pairs Hids). reflexivity.
Qed.

(** X19. A sequential flow adds up what its layers return under an
    accumulated name such as ["log_det"]: when every layer maps ["x"] and
    returns a term under [name], the flow returns under [name] the sum of
    the terms, each computed from the ["x"] that its layer received,
    starting from [jnp.array(0.0)] and in the order in which the layers
    run; a value of [name] in the inputs does not enter the sum. *)
Theorem sequential_accumulates (layers : list (@compose.layer V K))
    (steps : list ((V -> V) * (V -> V))) (inputs : dict.t V)
    (rng : option K) (sample : bool) (accumulate : list String.string)
    (name : String.string) (x : V) :
  (forall (key : K) (m : nat), length (random_split key m) = m) ->
  Forall2 (fun l st => compose.maps_x_with l sample name (fst st) (snd st))
    (if sample then rev layers else layers) steps ->
  steps <> [] ->
  In name accumulate ->
  ~ In "x"%string accumulate ->
  dict.get inputs "x" = Ok x ->
  exists outputs : dict.t V,
    compose.sequential_call layers inputs rng sample accumulate = Ok outputs
    /\ dict.get outputs "x" = Ok (fst (compose.chain steps x array_zero))
    /\ dict.get outputs name = Ok (snd (compose.chain steps x array_zero)).
Proof.
  intros Hsplit Hmaps Hsteps Hname Hacc Hx. unfold compose.sequential_call.
  set (acc_out := dict.of_items (map (fun n => (n, array_zero)) accumulate)).
  set (acc_found := dict.of_items (map (fun n => (n, false)) accumulate)).
  assert (Hkeys : map fst acc_found = map fst acc_out).
  { unfold acc_found, acc_out, dict.of_items.
    apply dict_keys_update; [|reflexivity].
    rewrite !map_map. reflexivity. }
  assert (Hwf : NoDup (map fst acc_out)) by apply dict_wf_of_items.
  assert (Hzero : dict.get acc_out name = Ok array_zero)
    by (apply dict_get_of_constant_items; exact Hname).
  assert (Hin : In name (map fst acc_out))
    by exact (dict_get_Ok_In _ _ _ Hzero).
  assert (Hpairs : Forall2
                     (fun p st =>
                        compose.maps_x_with (fst p) sample name (fst st)
                          (snd st))
                     (combine (if sample then rev layers else layers)
                        (compose.split_rngs rng (length layers))) steps).
  { assert (Hlen : length (compose.split_rngs rng (length layers))
                   = length (if sample then rev layers else layers)).
    { rewrite length_split_rngs by exact Hsplit.
      destruct sample; [rewrite length_rev|]; reflexivity. }
    revert Hlen. generalize (compose.split_rngs rng (length layers)).
    clear - Hmaps. induction Hmaps as [|l st ls sts Hl _ IH];
      intros rngs Hlen.
    - destruct rngs; constructor.
    - destruct rngs as [|r rngs]; [discriminate Hlen|].
      cbn. constructor; [exact Hl|]. apply IH. cbn in Hlen. lia. }
  destruct (sequential_loop_accumulates sample (map fst acc_out) name Hwf Hin
              _ steps inputs inputs acc_out acc_found x array_zero Hpairs
              Hx Hx eq_refl Hkeys Hzero)
    as (li & fo & ao & af & Hloop & Hfx & Hval & Hfound & Hao & Haf).
  rewrite Hloop. cbn [and_then].
  assert (Hnot : ~ In "x"%string (map fst ao)).
  { rewrite Hao. unfold acc_out, dict.of_items. intros Hk.
    apply dict_keys_update_In in Hk. destruct Hk as [[]|Hk].
    rewrite map_map in Hk. cbn in Hk. rewrite map_id in Hk.
    exact (Hacc Hk). }
  assert (Hincl : incl (map fst ao) (map fst af))
    by (rewrite Hao, Haf; apply incl_refl).
  destruct (swap_in_found ao af name _ (eq_ind_r _ Hwf Hao) Hincl Hval
              (Hfound (or_introl Hsteps)) fo) as (final' & Hswap & Hget).
  destruct (swap_in_other ao af "x"%string Hincl Hnot fo)
    as (final'' & Hswap' & Hgetx).
  rewrite Hswap in Hswap'. injection Hswap' as <-.
  exists final'. split; [exact Hswap|]. split; [|exact Hget].
  rewrite Hgetx. exact Hfx.
Qed.

End ComposeTheorems.

Lemma list_arrays_split_length (key m : nat) :
  length (random_split (Arrays := list_arrays) key m) = m.
Proof.
  cbn. rewrite length_map, length_seq. reflexivity.
Qed.

Lemma shift_layer_forward (c : Z) :
  compose.maps_x (shift_layer c) false (map (fun y => y + c)%Z).
Proof.
  intros inputs rng x Hx. unfold shift_layer. rewrite Hx. cbn.
  eexists. split; [reflexivity|]. split; [|reflexivity].
  unfold dict.wf. cbn. repeat constructor; cbn; intuition discriminate.
Qed.

Lemma shift_layer_backward (c : Z) :
  compose.maps_x (shift_layer c) true (map (fun y => y - c)%Z).
Proof.
  intros inputs rng x Hx. unfold shift_layer. rewrite Hx. cbn.
  eexists. split; [reflexivity|]. split; [|reflexivity].
  unfold dict.wf. cbn. repeat constructor; cbn; intuition discriminate.
Qed.

Lemma shift_layer_inverse (c : Z) (x : list Z) :
  map (fun y => y - c)%Z (map (fun y => y + c)%Z x) = x.
Proof.
  rewrite map_map. rewrite <- (map_id x) at 2.
  apply map_ext. intros y. lia.
Qed.

Lemma shift_layer_bijective (c : Z) : compose.bijective_on_x (shift_layer c).
Proof.
  exists (map (fun y => y + c)%Z), (map (fun y => y - c)%Z).
  split; [apply shift_layer_forward|].
  split; [apply shift_layer_backward | apply shift_layer_inverse].
Qed.

Lemma shift_layer_maps_x_with (c : Z) :
  compose.maps_x_with (shift_layer c) false "log_det"
    (map (fun y => y + c)%Z) (fun _ => [c]).
Proof.
  intros inputs rng x Hx. unfold shift_layer. rewrite Hx. cbn.
  eexists. split; [reflexivity|]. split; [|split; reflexivity].
  unfold dict.wf. cbn. repeat constructor; cbn; intuition discriminate.
Qed.

Lemma sequential_round_trip_witness :
  (forall key m : nat,
     length (random_split (Arrays := list_arrays) key m) = m)
  /\ Forall compose.bijective_on_x [shift_layer 1; shift_layer 2]
  /\ ~ In "x"%string ["log_det"%string]
  /\ dict.get [("x"%string, [5; 7]%Z)] "x" = Ok [5; 7]%Z
  /\ exists outputs back : dict.t (list Z),
       compose.sequential_call [shift_layer 1; shift_layer 2]
         [("x"%string, [5; 7]%Z)] (Some 0%nat) false ["log_det"%string]
       = Ok outputs
       /\ compose.sequential_call [shift_layer 1; shift_layer 2] outputs
            None true ["log_det"%string] = Ok back
       /\ dict.get back "x" = Ok [5; 7]%Z.
Proof.
  assert (Hbij : Forall compose.bijective_on_x [shift_layer 1; shift_layer 2])
    by (repeat constructor; apply shift_layer_bijective).
  assert (Hacc : ~ In "x"%string ["log_det"%string])
    by (cbn; intuition discriminate).
  split; [exact list_arrays_split_length|]. split; [exact Hbij|].
  split; [exact Hacc|]. split; [reflexivity|].
  apply (sequential_round_trip [shift_layer 1; shift_layer 2]
           [("x"%string, [5; 7]%Z)] (Some 0%nat) None ["log_det"%string]
           [5; 7]%Z list_arrays_split_length Hbij Hacc).
  reflexivity.
Defined.

Lemma sequential_accumulates_witness :
  dict.get [("x"%string, [5; 7]%Z); ("log_det"%string, [100]%Z)] "x"
  = Ok [5; 7]%Z
  /\ exists outputs : dict.t (list Z),
       compose.sequential_call [shift_layer 1; shift_layer 2]
         [("x"%string, [5; 7]%Z); ("log_det"%string, [100]%Z)] None false
         ["log_det"%string] = Ok outputs
       /\ dict.get outputs "x" = Ok [8; 10]%Z
       /\ dict.get outputs "log_det" = Ok [3]%Z.
Proof.
  split; [reflexivity|].
  apply (sequential_accumulates [shift_layer 1; shift_layer 2]
           [(map (fun y => y + 1)%Z, fun _ => [1%Z]);
            (map (fun y => y + 2)%Z, fun _ => [2%Z])]
           [("x"%string, [5; 7]%Z); ("log_det"%string, [100]%Z)] None false
           ["log_det"%string] "log_det" [5; 7]%Z list_arrays_split_length).
  - repeat constructor; apply shift_layer_maps_x_with.
  - discriminate.
  - left. reflexivity.
  - cbn. intuition discriminate.
  - reflexivity.
Defined.

Section MoreComposeTheorems.

Context {V K : Type} `{Arrays V K}.

Lemma swap_in_none_found (items : list (String.string * V))
    (acc_found : dict.t bool) (final_outputs : dict.t V) :
  (forall name : String.string,
     In name (map fst items) -> dict.get acc_found name = Ok false) ->
  compose.swap_in items acc_found final_outputs = Ok final_outputs.
Proof.
  induction items as [|[name val] items IH]; intros Hnone; [reflexivity|].
  cbn [compose.swap_in]. rewrite (Hnone name) by (left; reflexivity).
  cbn [and_then]. apply IH. intros n Hn. apply Hnone. right. exact Hn.
Qed.

(** X20. A sequential flow without layers returns its inputs as they are,
    in both directions and whatever names it is asked to accumulate. *)
Theorem sequential_without_layers (inputs : dict.t V) (rng : option K)
    (sample : bool) (accumulate : list String.string) :
  compose.sequential_call [] inputs rng sample accumulate = Ok inputs.
Proof.
  unfold compose.sequential_call.
  replace (combine (if sample then rev [] else [])
             (compose.split_rngs rng (length (@nil (@compose.layer V K)))))
    with (@nil (@compose.layer V K * option K))
    by (destruct sample; reflexivity).
  cbn [compose.sequential_loop and_then].
  apply swap_in_none_found. intros name Hname.
  apply dict_get_of_constant_items.
  unfold dict.of_items in Hname. apply dict_keys_update_In in Hname.
  destruct Hname as [[]|Hname].
  rewrite map_map in Hname. cbn in Hname. rewrite map_id in Hname.
  exact Hname.
Qed.

(** X21. [multi_scale] of a bijective flow that keeps the size of the last
    axis is bijective on ["x"]: forward, the first half of the last axis
    passes through unchanged and the flow maps the second half; run again
    on its outputs with [sample] set, it gives back the ["x"] it started
    from. *)
Theorem multi_scale_round_trip (flow : @compose.layer V K) (g g_inv : V -> V)
    (inputs : dict.t V) (rng rng' : option K) (x : V) :
  (forall (v : V) (k : Z),
     array_concatenate [fst (array_split v k (-1));
                        snd (array_split v k (-1))] (-1) = v) ->
  (forall a b : V,
     array_split (array_concatenate [a; b] (-1)) (array_shape a (-1)) (-1)
     = (a, b)) ->
  (forall a b : V,
     array_shape (array_concatenate [a; b] (-1)) (-1)
     = (array_shape a (-1) + array_shape b (-1))%Z) ->
  (forall (v : V) (k : Z),
     (0 <= k <= array_shape v (-1))%Z ->
     array_shape (fst (array_split v k (-1))) (-1) = k) ->
  (forall v : V, (0 <= array_shape v (-1))%Z) ->
  compose.maps_x flow false g ->
  compose.maps_x flow true g_inv ->
  (forall v : V, g_inv (g v) = v) ->
  (forall v : V, array_shape (g v) (-1) = array_shape v (-1)) ->
  dict.get inputs "x" = Ok x ->
  exists outputs back : dict.t V,
    compose.multi_scale_call flow inputs rng false = Ok outputs
    /\ dict.get outputs "x"
       = Ok (array_concatenate
               [fst (array_split x (array_shape x (-1) / 2) (-1));
                g (snd (array_split x (array_shape x (-1) / 2) (-1)))]
               (-1))
    /\ compose.multi_scale_call flow outputs rng' true = Ok back
    /\ dict.get back "x" = Ok x.
Proof.
  intros Hjoin Hsplit Hshape Hfirst Hnonneg Hg Hinv Hid Hsize Hx.
  set (k := (array_shape x (-1) / 2)%Z).
  pose proof (Hjoin x k) as Hx_join.
  destruct (array_split x k (-1)) as [xa xb] eqn:Hsp. cbn [fst snd] in *.
  assert (Hk : (0 <= k <= array_shape x (-1))%Z).
  { pose proof (Hnonneg x) as Hpos. unfold k. split.
    - apply Z.div_pos; lia.
    - apply Z.div_le_upper_bound; lia. }
  assert (Hxa : array_shape xa (-1) = k).
  { pose proof (Hfirst x k Hk) as Hf. rewrite Hsp in Hf. exact Hf. }
  destruct (Hg (dict.set inputs "x" xb) rng xb (dict_get_set_same _ _ _))
    as (out & Hcall & _ & Hout).
  set (z := array_concatenate [xa; g xb] (-1)).
  assert (Hz : array_shape z (-1) = array_shape x (-1)).
  { unfold z. rewrite Hshape, Hsize, <- Hshape, Hx_join. reflexivity. }
  assert (Hforward : compose.multi_scale_call flow inputs rng false
                     = Ok (dict.set out "x" z)).
  { unfold compose.multi_scale_call. rewrite Hx. cbn [and_then].
    fold k. rewrite Hsp, Hcall. cbn [and_then]. rewrite Hout. reflexivity. }
  exists (dict.set out "x" z).
  destruct (Hinv (dict.set (dict.set out "x" z) "x" (g xb)) rng' (g xb)
              (dict_get_set_same _ _ _)) as (out' & Hcall' & _ & Hout').
  exists (dict.set out' "x" x).
  split; [exact Hforward|]. split; [apply dict_get_set_same|].
  split; [|apply dict_get_set_same].
  unfold compose.multi_scale_call.
  rewrite dict_get_set_same. cbn [and_then].
  rewrite Hz. fold k. unfold z at 1. rewrite <- Hxa, Hsplit.
  rewrite Hcall'. cbn [and_then]. rewrite Hout'. cbn [and_then].
  rewrite Hid, Hx_join. reflexivity.
Qed.

Lemma dict_set_same_value {W : Type} (d : dict.t W) (k : String.string)
    (v : W) :
  dict.get d k = Ok v -> dict.set d k v = d.
Proof.
  induction d as [|[k' v'] d IH]; cbn; [discriminate|].
  destruct (String.eqb_spec k' k) as [->|Hne].
  - intros Hget. injection Hget as <-. reflexivity.
  - intros Hget. rewrite (IH Hget). reflexivity.
Qed.

Lemma dict_set_twice {W : Type} (d : dict.t W) (k : String.string)
    (v w : W) :
  dict.set (dict.set d k v) k w = dict.set d k w.
Proof.
  induction d as [|[k' v'] d IH]; cbn.
  - rewrite String.eqb_refl. reflexivity.
  - destruct (String.eqb k' k) eqn:Hk; cbn; rewrite Hk; [reflexivity|].
    rewrite IH. reflexivity.
Qed.

(** X22. Reversing a flow twice gives the flow back: when the flow returns
    outputs with a ["log_det"], [reverse_flow(reverse_flow(flow))] returns
    these very outputs, the direction flag and the sign of ["log_det"]
    being flipped twice. *)
Theorem reverse_flow_twice (flow : @compose.layer V K) (inputs : dict.t V)
    (rng : option K) (sample : bool) (outputs : dict.t V) (log_det : V) :
  (forall v : V, array_negate (array_negate v) = v) ->
  flow inputs rng sample = Ok outputs ->
  dict.get outputs "log_det" = Ok log_det ->
  compose.reverse_flow_call (compose.reverse_flow_call flow) inputs rng
    sample = Ok outputs.
Proof.
  intros Hneg Hflow Hld. unfold compose.reverse_flow_call.
  rewrite negb_involutive, Hflow. cbn [and_then].
  rewrite Hld. cbn [and_then]. rewrite dict_get_set_same. cbn [and_then].
  rewrite dict_set_twice, Hneg, (dict_set_same_value _ _ _ Hld).
  reflexivity.
Qed.

End MoreComposeTheorems.

Section FactoredTheorems.

Context {V K : Type} `{Arrays V K}.

Lemma swap_in_total (items : list (String.string * V))
    (acc_found : dict.t bool) :
  incl (map fst items) (map fst acc_found) ->
  forall final_outputs : dict.t V,
    exists final' : dict.t V,
      compose.swap_in items acc_found final_outputs = Ok final'.
Proof.
  induction items as [|[name val] items IH]; intros Hincl final_outputs.
  - exists final_outputs. reflexivity.
  - cbn [compose.swap_in].
    assert (Hname : In name (map fst acc_found))
      by (apply Hincl; left; reflexivity).
    destruct (dict_get_In acc_found name Hname) as [found Hfound].
    rewrite Hfound. cbn [and_then].
    assert (Hrest : incl (map fst items) (map fst acc_found))
      by (intros n Hn; apply Hincl; right; exact Hn).
    destruct found; apply IH; exact Hrest.
Qed.

(** One call of [factored] on two layers that map ["x"] by [h1] and
    [h2]. *)
Lemma factored_call_two (l1 l2 : @compose.layer V K) (h1 h2 : V -> V)
    (axis ratio : Z) (inputs : dict.t V) (rng : option K) (sample : bool)
    (accumulate : list String.string) (x : V) :
  (forall (key : K) (m : nat), length (random_split key m) = m) ->
  ratio <> 0%Z ->
  compose.maps_x l1 sample h1 ->
  compose.maps_x l2 sample h2 ->
  dict.get inputs "x" = Ok x ->
  exists outputs : dict.t V,
    compose.factored_call [l1; l2] axis ratio inputs rng sample accumulate
    = Ok outputs
    /\ dict.get outputs "x"
       = Ok (array_concatenate
               [h1 (fst (array_split x (array_shape x axis / ratio) axis));
                h2 (snd (array_split x (array_shape x axis / ratio) axis))]
               axis).
Proof.
  intros Hsplit Hratio H1 H2 Hx. unfold compose.factored_call.
  cbn [length Nat.eqb]. rewrite Hx. cbn [and_then].
  destruct (Z.eqb_spec ratio 0) as [Hz|_]; [contradiction|].
  destruct (array_split x (array_shape x axis / ratio) axis) as [xa xb].
  cbn [and_then fst snd].
  set (acc_out := dict.of_items (map (fun n => (n, array_zero)) accumulate)).
  set (acc_found := dict.of_items (map (fun n => (n, false)) accumulate)).
  assert (Hkeys : map fst acc_found = map fst acc_out).
  { unfold acc_found, acc_out, dict.of_items.
    apply dict_keys_update; [|reflexivity].
    rewrite !map_map. reflexivity. }
  assert (Hrngs : exists r1 r2 : option K,
            compose.split_rngs rng 2 = [r1; r2]).
  { pose proof (length_split_rngs rng 2 Hsplit) as Hlen.
    destruct (compose.split_rngs rng 2) as [|r1 [|r2 [|r3 rest]]];
      try discriminate Hlen.
    exists r1, r2. reflexivity. }
  destruct Hrngs as (r1 & r2 & Hrngs). rewrite Hrngs.
  cbn [combine compose.factored_loop].
  destruct (H1 (dict.set inputs "x" xa) r1 xa (dict_get_set_same _ _ _))
    as (out1 & Hcall1 & _ & Hout1).
  rewrite Hcall1. cbn [and_then]. rewrite Hout1. cbn [and_then].
  destruct (accumulate_names_keys (map fst acc_out) out1 acc_out acc_found)
    as (ao1 & af1 & Hacc1 & Hao1 & Haf1).
  { apply incl_refl. }
  { rewrite Hkeys. apply incl_refl. }
  rewrite Hacc1. cbn [and_then].
  destruct (H2 (dict.set (dict.set inputs "x" xa) "x" xb) r2 xb
              (dict_get_set_same _ _ _)) as (out2 & Hcall2 & _ & Hout2).
  rewrite Hcall2. cbn [and_then]. rewrite Hout2. cbn [and_then].
  destruct (accumulate_names_keys (map fst ao1) out2 ao1 af1)
    as (ao2 & af2 & Hacc2 & Hao2 & Haf2).
  { apply incl_refl. }
  { rewrite Hao1, Haf1, Hkeys. apply incl_refl. }
  rewrite Hacc2. cbn [and_then].
  destruct (swap_in_total ao2 af2) with
    (final_outputs := dict.update (dict.update inputs out1) out2)
    as (final' & Hswap).
  { rewrite Hao2, Haf2, Hao1, Haf1, Hkeys. apply incl_refl. }
  rewrite Hswap. cbn [and_then app].
  eexists. split; [reflexivity | apply dict_get_set_same].
Qed.

(** X23. [factored] of two bijective layers that keep the size of the
    split axis is bijective on ["x"]: forward, the two layers map the two
    parts of ["x"], split at [shape // first_factor_ratio]; run again on
    its outputs with [sample] set, it gives back the ["x"] it started
    from. *)
Theorem factored_round_trip (l1 l2 : @compose.layer V K)
    (g1 g1_inv g2 g2_inv : V -> V) (axis ratio : Z) (inputs : dict.t V)
    (rng rng' : option K) (accumulate : list String.string) (x : V) :
  (forall (key : K) (m : nat), length (random_split key m) = m) ->
  (forall (v : V) (k : Z),
     array_concatenate [fst (array_split v k axis);
                        snd (array_split v k axis)] axis = v) ->
  (forall a b : V,
     array_split (array_concatenate [a; b] axis) (array_shape a axis) axis
     = (a, b)) ->
  (forall a b : V,
     array_shape (array_concatenate [a; b] axis) axis
     = (array_shape a axis + array_shape b axis)%Z) ->
  (forall (v : V) (k : Z),
     (0 <= k <= array_shape v axis)%Z ->
     array_shape (fst (array_split v k axis)) axis = k) ->
  (forall v : V, (0 <= array_shape v axis)%Z) ->
  (1 <= ratio)%Z ->
  compose.maps_x l1 false g1 -> compose.maps_x l1 true g1_inv ->
  (forall v : V, g1_inv (g1 v) = v) ->
  (forall v : V, array_shape (g1 v) axis = array_shape v axis) ->
  compose.maps_x l2 false g2 -> compose.maps_x l2 true g2_inv ->
  (forall v : V, g2_inv (g2 v) = v) ->
  (forall v : V, array_shape (g2 v) axis = array_shape v axis) ->
  dict.get inputs "x" = Ok x ->
  exists outputs back : dict.t V,
    compose.factored_call [l1; l2] axis ratio inputs rng false accumulate
    = Ok outputs
    /\ compose.factored_call [l1; l2] axis ratio outputs rng' true accumulate
       = Ok back
    /\ dict.get back "x" = Ok x.
Proof.
  intros Hkeys Hjoin Hsplit Hshape Hfirst Hnonneg Hratio
    Hg1 Hi1 Hid1 Hs1 Hg2 Hi2 Hid2 Hs2 Hx.
  assert (Hne : ratio <> 0%Z) by lia.
  destruct (factored_call_two l1 l2 g1 g2 axis ratio inputs rng false
              accumulate x Hkeys Hne Hg1 Hg2 Hx) as (outputs & Hfwd & Hz).
  set (k := (array_shape x axis / ratio)%Z) in *.
  pose proof (Hjoin x k) as Hx_join.
  assert (Hk : (0 <= k <= array_shape x axis)%Z).
  { pose proof (Hnonneg x) as Hpos. unfold k. split.
    - apply Z.div_pos; lia.
    - apply Z.div_le_upper_bound; nia. }
  pose proof (Hfirst x k Hk) as Hxa.
  destruct (array_split x k axis) as [xa xb]. cbn [fst snd] in *.
  set (z := array_concatenate [g1 xa; g2 xb] axis) in *.
  assert (Hshape_z : array_shape z axis = array_shape x axis).
  { unfold z. rewrite Hshape, Hs1, Hs2, <- Hshape, Hx_join. reflexivity. }
  destruct (factored_call_two l1 l2 g1_inv g2_inv axis ratio outputs rng'
              true accumulate z Hkeys Hne Hi1 Hi2 Hz) as (back & Hbwd & Hb).
  exists outputs, back. split; [exact Hfwd|]. split; [exact Hbwd|].
  rewrite Hb, Hshape_z. fold k.
  assert (Hparts : array_split z k axis = (g1 xa, g2 xb)).
  { unfold z. rewrite <- Hxa, <- (Hs1 xa). apply Hsplit. }
  rewrite Hparts. cbn [fst snd]. rewrite Hid1, Hid2, Hx_join. reflexivity.
Qed.

End FactoredTheorems.

Lemma list_arrays_split_of_concatenate (a b : list Z) (axis : Z) :
  array_split (array_concatenate [a; b] axis) (array_shape a axis) axis
  = (a, b).
Proof.
  cbn. rewrite app_nil_r, Nat2Z.id.
  rewrite firstn_app, Nat.sub_diag, firstn_all, firstn_O, app_nil_r.
  rewrite skipn_app, Nat.sub_diag, skipn_all. reflexivity.
Qed.

Lemma list_arrays_first_shape (v : list Z) (k axis : Z) :
  (0 <= k <= array_shape v axis)%Z ->
  array_shape (fst (array_split v k axis)) axis = k.
Proof.
  cbn. intros Hk. rewrite length_firstn. lia.
Qed.

Lemma multi_scale_round_trip_witness :
  dict.get [("x"%string, [1; 2; 3; 4; 5]%Z)] "x" = Ok [1; 2; 3; 4; 5]%Z
  /\ exists outputs back : dict.t (list Z),
       compose.multi_scale_call (shift_layer 10)
         [("x"%string, [1; 2; 3; 4; 5]%Z)] None false = Ok outputs
       /\ dict.get outputs "x" = Ok [1; 2; 13; 14; 15]%Z
       /\ compose.multi_scale_call (shift_layer 10) outputs None true
          = Ok back
       /\ dict.get back "x" = Ok [1; 2; 3; 4; 5]%Z.
Proof.
  split; [reflexivity|].
  assert (Hjoin : forall (v : list Z) (k : Z),
            array_concatenate [fst (array_split v k (-1));
                               snd (array_split v k (-1))] (-1) = v)
    by (intros v k; cbn; rewrite app_nil_r; apply firstn_skipn).
  assert (Hshape : forall a b : list Z,
            array_shape (array_concatenate [a; b] (-1)) (-1)
            = (array_shape a (-1) + array_shape b (-1))%Z)
    by (intros a b; cbn; rewrite app_nil_r, length_app; lia).
  assert (Hnonneg : forall v : list Z, (0 <= array_shape v (-1))%Z)
    by (intros v; cbn; lia).
  assert (Hsize : forall v : list Z,
            array_shape (map (fun y => y + 10)%Z v) (-1)
            = array_shape v (-1))
    by (intros v; cbn; rewrite length_map; reflexivity).
  exact (multi_scale_round_trip (shift_layer 10)
           (map (fun y => y + 10)%Z) (map (fun y => y - 10)%Z)
           [("x"%string, [1; 2; 3; 4; 5]%Z)] None None [1; 2; 3; 4; 5]%Z
           Hjoin (fun a b => list_arrays_split_of_concatenate a b (-1))
           Hshape (fun v k => list_arrays_first_shape v k (-1)) Hnonneg (shift_layer_forward 10)
           (shift_layer_backward 10) (shift_layer_inverse 10) Hsize
           eq_refl).
Defined.

Lemma reverse_flow_twice_witness :
  shift_layer 3 [("x"%string, [5; 7]%Z)] None false
  = Ok [("x"%string, [8; 10]%Z); ("log_det"%string, [3%Z])]
  /\ compose.reverse_flow_call (compose.reverse_flow_call (shift_layer 3))
       [("x"%string, [5; 7]%Z)] None false
     = Ok [("x"%string, [8; 10]%Z); ("log_det"%string, [3%Z])].
Proof.
  split; [reflexivity|].
  apply (reverse_flow_twice (shift_layer 3) [("x"%string, [5; 7]%Z)] None
           false [("x"%string, [8; 10]%Z); ("log_det"%string, [3%Z])]
           [3%Z]).
  - intros v. cbn. rewrite map_map. rewrite <- (map_id v) at 2.
    apply map_ext. intros y. lia.
  - reflexivity.
  - reflexivity.
Defined.

Lemma factored_round_trip_witness :
  (1 <= 2)%Z
  /\ dict.get [("x"%string, [1; 2; 3; 4; 5]%Z)] "x" = Ok [1; 2; 3; 4; 5]%Z
  /\ exists outputs back : dict.t (list Z),
       compose.factored_call [shift_layer 10; shift_layer 20] (-1) 2
         [("x"%string, [1; 2; 3; 4; 5]%Z)] None false ["log_det"%string]
       = Ok outputs
       /\ compose.factored_call [shift_layer 10; shift_layer 20] (-1) 2
            outputs None true ["log_det"%string] = Ok back
       /\ dict.get back "x" = Ok [1; 2; 3; 4; 5]%Z.
Proof.
  split; [lia|]. split; [reflexivity|].
  assert (Hjoin : forall (v : list Z) (k : Z),
            array_concatenate [fst (array_split v k (-1));
                               snd (array_split v k (-1))] (-1) = v)
    by (intros v k; cbn; rewrite app_nil_r; apply firstn_skipn).
  assert (Hshape : forall a b : list Z,
            array_shape (array_concatenate [a; b] (-1)) (-1)
            = (array_shape a (-1) + array_shape b (-1))%Z)
    by (intros a b; cbn; rewrite app_nil_r, length_app; lia).
  assert (Hnonneg : forall v : list Z, (0 <= array_shape v (-1))%Z)
    by (intros v; cbn; lia).
  assert (Hsize : forall (c : Z) (v : list Z),
            array_shape (map (fun y => y + c)%Z v) (-1)
            = array_shape v (-1))
    by (intros c v; cbn; rewrite length_map; reflexivity).
  assert (Hone : (1 <= 2)%Z) by lia.
  exact (factored_round_trip (shift_layer 10) (shift_layer 20)
           (map (fun y => y + 10)%Z) (map (fun y => y - 10)%Z)
           (map (fun y => y + 20)%Z) (map (fun y => y - 20)%Z) (-1) 2
           [("x"%string, [1; 2; 3; 4; 5]%Z)] None None ["log_det"%string]
           [1; 2; 3; 4; 5]%Z list_arrays_split_length Hjoin
           (fun a b => list_arrays_split_of_concatenate a b (-1)) Hshape
           (fun v k => list_arrays_first_shape v k (-1)) Hnonneg Hone
           (shift_layer_forward 10) (shift_layer_backward 10)
           (shift_layer_inverse 10) (Hsize 10%Z)
           (shift_layer_forward 20) (shift_layer_backward 20)
           (shift_layer_inverse 20) (Hsize 20%Z) eq_refl).
Defined.



(** The combinators run: two shifts in sequence, forward and back. *)
Example sequential_of_two_shifts :
  compose.sequential_call [shift_layer 1; shift_layer 2]
    [("x"%string, [5; 7]%Z)] None false ["log_det"%string]
  = Ok [("x"%string, [8; 10]%Z); ("log_det"%string, [3%Z])]
  /\ compose.sequential_call [shift_layer 1; shift_layer 2]
       [("x"%string, [8; 10]%Z); ("log_det"%string, [3%Z])] None true
       ["log_det"%string]
     = Ok [("x"%string, [5; 7]%Z); ("log_det"%string, [3%Z])].
Proof.
  split; vm_compute; reflexivity.
Qed.

(** The masks of a network with three inputs and one hidden layer of four
    units. *)
Example masks_of_a_small_network :
  staxplusplus.build_autoregressive_masks 3 [4%Z] false
  = [("mask_0"%string, [[1; 1; 1; 1]; [0; 1; 0; 1]; [0; 0; 0; 0]]);
     ("mask_1"%string, [[1; 1; 1]; [0; 1; 0]; [1; 1; 1]; [0; 1; 0]]);
     ("skip"%string, [[0; 1; 1]; [0; 0; 1]; [0; 0; 0]]);
     ("mu"%string, [[0; 1; 1]; [0; 0; 1]; [0; 1; 1]]);
     ("alpha"%string, [[0; 1; 1]; [0; 0; 1]; [0; 1; 1]])]%Z.
Proof.
  vm_compute. reflexivity.
Qed.
